(** * ella.to/vault: a shallow embedding of the secret-storage facade and
  its platform adapters, with the properties of its specification.

  Go strings are [string] (a sequence of 8-bit characters), byte slices
  are [list byte], a nil slice is [[]].  Machine integers are [Z] with
  the bit operations of the source.  Every operation that touches the
  outside world (file system, external process, IndexedDB request) takes
  the world as an argument and returns the new one. *)

From Stdlib Require Import ZArith Lia List Bool.
From Stdlib.Strings Require Import Ascii String Byte.
From stdpp Require Import base option gmap strings.
Import ListNotations.

Local Open Scope Z_scope.

(** ** Errors

    The three sentinels of vault.go, and the other error values the
    adapters build or receive. *)

Inductive errno := ENOENT | EACCES.

Inductive error :=
| ErrNotFound                                   (* vault: key not found *)
| ErrInvalidKey                                 (* vault: invalid key *)
| ErrInvalidValue                               (* vault: invalid value *)
| CorruptInputError (offset : Z)                (* encoding/base64 *)
| PathError (op path : string) (e : errno)      (* os *)
| ExitError (code : Z)                          (* os/exec: nonzero exit *)
| ExecError (msg : string)                      (* os/exec: could not start *)
| ErrorsNew (msg : string)                      (* errors.New(msg) *)
| Errorf_s (format arg : string)                (* fmt.Errorf(format, string) *)
| Errorf_w (format : string) (cause : error).   (* fmt.Errorf("...%w", err) *)

(** A backend failure is any error that is none of the three sentinels. *)
Definition BackendFailure (e : error) : Prop :=
  e <> ErrNotFound /\ e <> ErrInvalidKey /\ e <> ErrInvalidValue.

(** ** Bytes *)

(** [uint(b)]: the value of a byte. *)
Definition byte_val (b : byte) : Z := Z.of_N (Byte.to_N b).

(** [byte(x)]: conversion of an unsigned integer to a byte keeps the low
    eight bits. *)
Definition to_byte (x : Z) : byte :=
  match Byte.of_N (Z.to_N (Z.land x 255)) with
  | Some b => b
  | None => x00
  end.

Definition ascii_val (c : ascii) : Z := Z.of_N (N_of_ascii c).

(** [string(data)] and [[]byte(s)]. *)
Definition string_of_bytes (data : list byte) : string :=
  String.string_of_list_byte data.
Definition bytes_of_string (s : string) : list byte :=
  String.list_byte_of_string s.

(** ** encoding/base64 (Go standard library), as the adapters use it *)

Module base64.

Record Encoding := {
  encode : string;            (* the 64-character alphabet *)
  padChar : option ascii;     (* None is NoPadding *)
  strict : bool
}.

Definition encodeStd : string :=
  "ABCDEFGHIJKLMNOPQRSTUVWXYZabcdefghijklmnopqrstuvwxyz0123456789+/".
Definition encodeURL : string :=
  "ABCDEFGHIJKLMNOPQRSTUVWXYZabcdefghijklmnopqrstuvwxyz0123456789-_".
Definition StdPadding : ascii := "="%char.

Definition StdEncoding : Encoding :=
  {| encode := encodeStd; padChar := Some StdPadding; strict := false |}.
Definition URLEncoding : Encoding :=
  {| encode := encodeURL; padChar := Some StdPadding; strict := false |}.

(** [enc.encode[v]] *)
Definition encode_at (enc : Encoding) (v : Z) : ascii :=
  match String.get (Z.to_nat v) (encode enc) with
  | Some c => c
  | None => Ascii.zero
  end.

(** [decodeMap]: filled with 0xff, then [decodeMap[encoder[i]] = i]. *)
Fixpoint fill_decodeMap (encoder : string) (i : Z) (m : ascii -> Z)
  : ascii -> Z :=
  match encoder with
  | EmptyString => m
  | String c rest =>
      fill_decodeMap rest (i + 1)
        (fun x => if Ascii.eqb x c then i else m x)
  end.

Definition decodeMap (enc : Encoding) : ascii -> Z :=
  fill_decodeMap (encode enc) 0 (fun _ => 255).

Definition pad (enc : Encoding) : string :=
  match padChar enc with
  | Some p => String p EmptyString
  | None => EmptyString
  end.

(** [Encode]: whole groups of three bytes, then the remaining one or two
    bytes with padding. *)
Fixpoint EncodeToString (enc : Encoding) (src : list byte) : string :=
  match src with
  | [] => EmptyString
  | [b0] =>
      let val := Z.shiftl (byte_val b0) 16 in
      String (encode_at enc (Z.land (Z.shiftr val 18) 63))
        (String (encode_at enc (Z.land (Z.shiftr val 12) 63))
           (pad enc +:+ pad enc))
  | [b0; b1] =>
      let val := Z.lor (Z.shiftl (byte_val b0) 16)
                       (Z.shiftl (byte_val b1) 8) in
      String (encode_at enc (Z.land (Z.shiftr val 18) 63))
        (String (encode_at enc (Z.land (Z.shiftr val 12) 63))
           (String (encode_at enc (Z.land (Z.shiftr val 6) 63))
              (pad enc)))
  | b0 :: b1 :: b2 :: rest =>
      let val := Z.lor (Z.lor (Z.shiftl (byte_val b0) 16)
                              (Z.shiftl (byte_val b1) 8))
                       (byte_val b2) in
      String (encode_at enc (Z.land (Z.shiftr val 18) 63))
        (String (encode_at enc (Z.land (Z.shiftr val 12) 63))
           (String (encode_at enc (Z.land (Z.shiftr val 6) 63))
              (String (encode_at enc (Z.land val 63))
                 (EncodeToString enc rest))))
  end.

Definition is_newline (c : ascii) : bool :=
  Ascii.eqb c "010"%char || Ascii.eqb c "013"%char.

Definition is_pad (enc : Encoding) (c : ascii) : bool :=
  match padChar enc with
  | Some p => Ascii.eqb c p
  | None => false
  end.

(** [for si < len(src) && (src[si] == '\n' || src[si] == '\r') { si++ }] *)
Fixpoint skip_newlines (src : string) (si : Z) : string * Z :=
  match src with
  | String c rest =>
      if is_newline c then skip_newlines rest (si + 1) else (src, si)
  | EmptyString => (src, si)
  end.

(** The tail of [decodeQuantum]: the [dlen] sextets of [dbuf] become
    [dlen - 1] bytes appended to the output. *)
Definition convert (enc : Encoding) (d0 d1 d2 d3 : Z) (dlen : nat)
    (si : Z) (err : option error) (dst : list byte)
  : list byte * option error :=
  let val := Z.lor (Z.lor (Z.lor (Z.shiftl d0 18) (Z.shiftl d1 12))
                          (Z.shiftl d2 6)) d3 in
  let b2 := to_byte (Z.shiftr val 0) in
  let b1 := to_byte (Z.shiftr val 8) in
  let b0 := to_byte (Z.shiftr val 16) in
  match dlen with
  | 4%nat => (dst ++ [b0; b1; b2], err)
  | 3%nat =>
      if strict enc && negb (byte_val b2 =? 0)
      then (dst, Some (CorruptInputError (si - 1)))
      else (dst ++ [b0; b1], err)
  | 2%nat =>
      if strict enc && (negb (byte_val b1 =? 0) || negb (byte_val b2 =? 0))
      then (dst, Some (CorruptInputError (si - 2)))
      else (dst ++ [b0], err)
  | _ => (dst, err)
  end.

(** After the padding of a quantum: skip newlines, anything left is
    trailing garbage. *)
Definition after_padding (enc : Encoding) (d0 d1 d2 : Z) (dlen : nat)
    (src : string) (si : Z) (dst : list byte)
  : list byte * option error :=
  let '(rest, si') := skip_newlines src si in
  let err := match rest with
             | EmptyString => None
             | String _ _ => Some (CorruptInputError si')
             end in
  convert enc d0 d1 d2 0 dlen si' err dst.

(** [Decode]: the loop [for si < len(src)] around [decodeQuantum], with
    the inner loop of [decodeQuantum] over [j] unfolded into the same
    recursion.  [src] is [src[si:]], [j] and [d0 d1 d2] are the index
    and the contents of [dbuf]; between two quanta [j] is 0.  The result
    is [(dst[:n], err)]. *)
Fixpoint Decode (enc : Encoding) (src : string) (si : Z) (j : nat)
    (d0 d1 d2 : Z) (dst : list byte) {struct src}
  : list byte * option error :=
  match src with
  | EmptyString =>
      match j with
      | 0%nat => (dst, None)
      | 1%nat => (dst, Some (CorruptInputError (si - 1)))
      | _ =>
          match padChar enc with
          | Some _ => (dst, Some (CorruptInputError (si - Z.of_nat j)))
          | None => convert enc d0 d1 d2 0 j si None dst
          end
      end
  | String c rest =>
      let si := si + 1 in
      let out := decodeMap enc c in
      if negb (out =? 255) then
        match j with
        | 0%nat => Decode enc rest si 1 out 0 0 dst
        | 1%nat => Decode enc rest si 2 d0 out 0 dst
        | 2%nat => Decode enc rest si 3 d0 d1 out dst
        | _ =>
            match convert enc d0 d1 d2 out 4 si None dst with
            | (dst', None) => Decode enc rest si 0 0 0 0 dst'
            | (dst', Some e) => (dst', Some e)
            end
        end
      else if is_newline c then Decode enc rest si j d0 d1 d2 dst
      else if negb (is_pad enc c) then
        (dst, Some (CorruptInputError (si - 1)))
      else
        match j with
        | 0%nat | 1%nat => (dst, Some (CorruptInputError (si - 1)))
        | 2%nat =>
            match skip_newlines rest si with
            | (EmptyString, si1) => (dst, Some (CorruptInputError si1))
            | (String c2 rest2, si1) =>
                if negb (is_pad enc c2)
                then (dst, Some (CorruptInputError (si1 - 1)))
                else after_padding enc d0 d1 0 2 rest2 (si1 + 1) dst
            end
        | _ => after_padding enc d0 d1 d2 3 rest si dst
        end
  end.

Definition DecodeString (enc : Encoding) (s : string)
  : list byte * option error :=
  Decode enc s 0 0 0 0 0 [].

End base64.

(** ** unicode/utf8 and unicode (Go standard library) *)

Module utf8.

Definition RuneError : Z := 65533.
Definition RuneSelf : Z := 128.
Definition UTFMax : Z := 4.

Definition len (s : string) : Z := Z.of_nat (String.length s).

(** [s[i]] and [s[i:j]] *)
Definition at_ (s : string) (i : Z) : Z :=
  match String.get (Z.to_nat i) s with
  | Some c => ascii_val c
  | None => 0
  end.
Definition slice (s : string) (i j : Z) : string :=
  String.substring (Z.to_nat i) (Z.to_nat (j - i)) s.

(** The table [first]: information about the first byte of an encoding.
    0xF0 is [as] (ASCII), 0xF1 is [xx] (invalid); otherwise the low three
    bits are the size and the high four bits index [acceptRanges]. *)
Definition first (b : Z) : Z :=
  if b <? 128 then 240
  else if b <? 194 then 241
  else if b <? 224 then 2
  else if b =? 224 then 19
  else if b <? 237 then 3
  else if b =? 237 then 35
  else if b <? 240 then 3
  else if b =? 240 then 52
  else if b <? 244 then 4
  else if b =? 244 then 68
  else 241.

Definition acceptRanges (i : Z) : Z * Z :=
  match i with
  | 0 => (128, 191)
  | 1 => (160, 191)
  | 2 => (128, 159)
  | 3 => (144, 191)
  | 4 => (128, 143)
  | _ => (0, 0)
  end.

Definition DecodeRuneInString (s : string) : Z * Z :=
  match s with
  | EmptyString => (RuneError, 0)
  | String c0 t0 =>
      let s0 := ascii_val c0 in
      let x := first s0 in
      if x >=? 240 then
        (if Z.odd x then RuneError else s0, 1)
      else
        let sz := Z.land x 7 in
        let '(lo, hi) := acceptRanges (Z.shiftr x 4) in
        if len s <? sz then (RuneError, 1)
        else
          let s1 := at_ s 1 in
          if (s1 <? lo) || (hi <? s1) then (RuneError, 1)
          else if sz <=? 2 then
            (Z.lor (Z.shiftl (Z.land s0 31) 6) (Z.land s1 63), 2)
          else
            let s2 := at_ s 2 in
            if (s2 <? 128) || (191 <? s2) then (RuneError, 1)
            else if sz <=? 3 then
              (Z.lor (Z.lor (Z.shiftl (Z.land s0 15) 12)
                            (Z.shiftl (Z.land s1 63) 6))
                     (Z.land s2 63), 3)
            else
              let s3 := at_ s 3 in
              if (s3 <? 128) || (191 <? s3) then (RuneError, 1)
              else
                (Z.lor (Z.lor (Z.lor (Z.shiftl (Z.land s0 7) 18)
                                     (Z.shiftl (Z.land s1 63) 12))
                              (Z.shiftl (Z.land s2 63) 6))
                       (Z.land s3 63), 4)
  end.

Definition RuneStart (b : Z) : bool := negb (Z.land b 192 =? 128).

(** [for start--; start >= lim; start-- { if RuneStart(s[start]) { break } }]
    ([lim >= end - UTFMax], so the loop body runs at most three times). *)
Fixpoint back_to_start (n : nat) (s : string) (start lim : Z) : Z :=
  match n with
  | O => start
  | S n' =>
      if start >=? lim then
        if RuneStart (at_ s start) then start
        else back_to_start n' s (start - 1) lim
      else start
  end.

Definition DecodeLastRuneInString (s : string) : Z * Z :=
  let end_ := len s in
  if end_ =? 0 then (RuneError, 0)
  else
    let start := end_ - 1 in
    let r := at_ s start in
    if r <? RuneSelf then (r, 1)
    else
      let lim := Z.max (end_ - UTFMax) 0 in
      let start := back_to_start 4 s (start - 1) lim in
      let start := Z.max start 0 in
      let '(r, size) := DecodeRuneInString (slice s start end_) in
      if negb (start + size =? end_) then (RuneError, 1) else (r, size).

End utf8.

Module unicode.

(** [IsSpace]: the Latin-1 spaces, then the White_Space table. *)
Definition IsSpace (r : Z) : bool :=
  if r <=? 255 then
    (r =? 9) || (r =? 10) || (r =? 11) || (r =? 12) || (r =? 13) ||
    (r =? 32) || (r =? 133) || (r =? 160)
  else
    (r =? 5760) || ((8192 <=? r) && (r <=? 8202)) ||
    (r =? 8232) || (r =? 8233) || (r =? 8239) || (r =? 8287) ||
    (r =? 12288).

End unicode.

(** ** strings (Go standard library) *)

Module strings.

(** [Contains(s, substr)]: [substr] occurs somewhere in [s]. *)
Fixpoint Contains (s substr : string) : bool :=
  String.prefix substr s ||
  match s with
  | EmptyString => false
  | String _ rest => Contains rest substr
  end.

(** [for i, r := range s { if f(r) == truth { return i } }; return -1]:
    [skip] counts the bytes of the current rune still to pass. *)
Fixpoint indexFunc (s : string) (i : Z) (skip : nat) (f : Z -> bool)
    (truth : bool) : Z :=
  match s with
  | EmptyString => -1
  | String _ rest =>
      match skip with
      | S k => indexFunc rest (i + 1) k f truth
      | O =>
          let '(r, size) := utf8.DecodeRuneInString s in
          if Bool.eqb (f r) truth then i
          else indexFunc rest (i + 1) (Z.to_nat size - 1) f truth
      end
  end.

(** [for i := len(s); i > 0; { r, size := DecodeLastRuneInString(s[0:i]);
    i -= size; if f(r) == truth { return i } }; return -1], over the
    reversal [rs] of [s[0:i]]. *)
Fixpoint lastIndexFunc (rs : list ascii) (i : Z) (skip : nat)
    (f : Z -> bool) (truth : bool) : Z :=
  match rs with
  | [] => -1
  | _ :: rest =>
      match skip with
      | S k => lastIndexFunc rest (i - 1) k f truth
      | O =>
          let '(r, size) :=
            utf8.DecodeLastRuneInString (string_of_list_ascii (rev rs)) in
          if Bool.eqb (f r) truth then i - size
          else lastIndexFunc rest (i - 1) (Z.to_nat size - 1) f truth
      end
  end.

Definition TrimLeftFunc (s : string) (f : Z -> bool) : string :=
  let i := indexFunc s 0 0 f false in
  if i =? -1 then EmptyString else utf8.slice s i (utf8.len s).

Definition TrimRightFunc (s : string) (f : Z -> bool) : string :=
  let i := lastIndexFunc (rev (list_ascii_of_string s)) (utf8.len s) 0
             f false in
  let i :=
    if (i >=? 0) && (utf8.at_ s i >=? utf8.RuneSelf) then
      i + snd (utf8.DecodeRuneInString (utf8.slice s i (utf8.len s)))
    else i + 1 in
  utf8.slice s 0 i.

Definition TrimFunc (s : string) (f : Z -> bool) : string :=
  TrimRightFunc (TrimLeftFunc s f) f.

Definition asciiSpace (c : Z) : bool :=
  (c =? 9) || (c =? 10) || (c =? 11) || (c =? 12) || (c =? 13) ||
  (c =? 32).

(** The first loop of [TrimSpace]: [inl s[start:]] when a byte outside
    ASCII is met, else [inr s[start:]] at the first byte that is no
    space. *)
Fixpoint TrimSpace_start (s : string) : string + string :=
  match s with
  | EmptyString => inr s
  | String c rest =>
      if ascii_val c >=? utf8.RuneSelf then inl s
      else if asciiSpace (ascii_val c) then TrimSpace_start rest
      else inr s
  end.

(** The second loop, from the end, over the reversed string. *)
Fixpoint TrimSpace_stop (rs : list ascii) : list ascii + list ascii :=
  match rs with
  | [] => inr rs
  | c :: rest =>
      if ascii_val c >=? utf8.RuneSelf then inl rs
      else if asciiSpace (ascii_val c) then TrimSpace_stop rest
      else inr rs
  end.

Definition TrimSpace (s : string) : string :=
  match TrimSpace_start s with
  | inl s' => TrimFunc s' unicode.IsSpace
  | inr s' =>
      match TrimSpace_stop (rev (list_ascii_of_string s')) with
      | inl rs =>
          TrimRightFunc (string_of_list_ascii (rev rs)) unicode.IsSpace
      | inr rs => string_of_list_ascii (rev rs)
      end
  end.

(** [ToLower]: text within ASCII is lowered byte by byte (and returned as
    it is when it has no upper-case letter); other text goes through
    [Map(unicode.ToLower, s)], which rests on the case tables of package
    unicode and is taken as [Map_ToLower]. *)
Section Lower.

Variable Map_ToLower : string -> string.

(** The first loop: [(isASCII, hasUpper)], stopping at the first byte
    outside ASCII. *)
Fixpoint scan_ascii (s : string) (hasUpper : bool) : bool * bool :=
  match s with
  | EmptyString => (true, hasUpper)
  | String c rest =>
      if ascii_val c >=? utf8.RuneSelf then (false, hasUpper)
      else
        scan_ascii rest
          (hasUpper || ((65 <=? ascii_val c) && (ascii_val c <=? 90)))
  end.

(** The second loop: [c += 'a' - 'A'] for the bytes in ['A', 'Z']. *)
Fixpoint lower_ascii (s : string) : string :=
  match s with
  | EmptyString => EmptyString
  | String c rest =>
      String (if (65 <=? ascii_val c) && (ascii_val c <=? 90)
              then ascii_of_N (N_of_ascii c + 32) else c)
             (lower_ascii rest)
  end.

Definition ToLower (s : string) : string :=
  let '(isASCII, hasUpper) := scan_ascii s false in
  if isASCII then
    if negb hasUpper then s else lower_ascii s
  else Map_ToLower s.

End Lower.


End strings.

(** ** path/filepath, os and os/exec: the external collaborators *)

Module filepath.

(** [strings.Join(elems, "/")] *)
Fixpoint join_sep (elems : list string) : string :=
  match elems with
  | [] => EmptyString
  | [e] => e
  | e :: rest => e +:+ "/" +:+ join_sep rest
  end.

(** The elements of a path between its separators. *)
Fixpoint components (path : string) : list string :=
  match path with
  | EmptyString => [EmptyString]
  | String c rest =>
      if Ascii.eqb c "/" then EmptyString :: components rest
      else
        match components rest with
        | comp :: more => String c comp :: more
        | [] => [String c EmptyString]
        end
  end.

(** One element in the loop of [Clean]: an empty element and "." are
    dropped; ".." removes the element before it, or stays when there is
    none to remove and the path is not rooted; any other element is kept.
    [out] holds the elements written so far. *)
Definition clean_step (rooted : bool) (out : list string) (comp : string)
  : list string :=
  if String.eqb comp EmptyString || String.eqb comp "." then out
  else if String.eqb comp ".." then
    match out with
    | [] => if rooted then out else [".."%string]
    | _ =>
        if String.eqb (List.last out EmptyString) ".."
        then out ++ [".."%string]
        else removelast out
    end
  else out ++ [comp].

(** [Clean(path)]: the shortest path equivalent to [path] by lexical
    processing. *)
Definition Clean (path : string) : string :=
  match path with
  | EmptyString => "."
  | String c _ =>
      let rooted := Ascii.eqb c "/" in
      let out := fold_left (clean_step rooted) (components path) [] in
      if rooted then "/" +:+ join_sep out
      else
        match out with
        | [] => "."
        | _ => join_sep out
        end
  end.

(** [Join(elem...)]: the elements from the first non-empty one on are
    joined with the separator and the result is cleaned; without such an
    element the result is empty. *)
Fixpoint Join (elem : list string) : string :=
  match elem with
  | [] => EmptyString
  | e :: rest =>
      if String.eqb e EmptyString then Join rest
      else Clean (join_sep elem)
  end.

End filepath.

Module os.

(** An entry of the file system: a regular file the process may read and
    write, or an entry it has no permission on. *)
Inductive node := File (data : list byte) | Locked.

(** What the process finds around itself.  [MkdirAll] is the outcome of
    creating a directory with all its parents, [LookPath] the outcome of
    searching an executable (os/exec). *)
Record Env := {
  Getenv : string -> string;
  Getwd : string * option error;
  UserHomeDir : string * option error;
  MkdirAll : string -> option error;
  LookPath : string -> option error
}.

Record World := { env : Env; fs : gmap string node }.

Definition IsNotExist (e : error) : bool :=
  match e with
  | PathError _ _ ENOENT => true
  | _ => false
  end.

Definition ReadFile (name : string) (w : World) : list byte * option error :=
  match fs w !! name with
  | Some (File data) => (data, None)
  | Some Locked => ([], Some (PathError "open" name EACCES))
  | None => ([], Some (PathError "open" name ENOENT))
  end.

Definition WriteFile (name : string) (data : list byte) (w : World)
  : option error * World :=
  match fs w !! name with
  | Some Locked => (Some (PathError "open" name EACCES), w)
  | _ => (None, {| env := env w; fs := <[name := File data]> (fs w) |})
  end.

Definition Remove (name : string) (w : World) : option error * World :=
  match fs w !! name with
  | Some (File _) => (None, {| env := env w; fs := delete name (fs w) |})
  | Some Locked => (Some (PathError "remove" name EACCES), w)
  | None => (Some (PathError "remove" name ENOENT), w)
  end.

End os.

Module exec.

(** [exec.Command(name, arg...)] with its standard input. *)
Record Cmd := {
  name : string;
  args : list string;
  Stdin : list byte
}.

Definition Command (name : string) (args : list string) : Cmd :=
  {| name := name; args := args; Stdin := [] |}.

(** What [cmd.Run()] leaves behind: its error and the two buffers. *)
Record Result := {
  err : option error;
  stdout : string;
  stderr : string
}.

End exec.

(** ** The file adapters (android, ios, and the fallback of linux)

  The three files have the same [set], [get] and [del]; they differ in
  [getStorageDir]. *)

Module filestore.
Section Adapter.

Variable getStorageDir : os.Env -> string * option error.

Definition getStoragePath (service key : string) (w : os.World)
  : string * option error :=
  match getStorageDir (os.env w) with
  | (_, Some e) => (EmptyString, Some e)
  | (dir, None) =>
      (* Use base64 encoding for safe filenames *)
      let filename :=
        base64.EncodeToString base64.URLEncoding
          (bytes_of_string (service +:+ "/" +:+ key)) in
      (filepath.Join [dir; filename], None)
  end.

Definition set (service key : string) (value : list byte) (w : os.World)
  : option error * os.World :=
  match getStoragePath service key w with
  | (_, Some e) =>
      (Some (Errorf_w "vault: failed to get storage path: %w" e), w)
  | (path, None) =>
      let encoded := base64.EncodeToString base64.StdEncoding value in
      match os.WriteFile path (bytes_of_string encoded) w with
      | (Some e, w') =>
          (Some (Errorf_w "vault: failed to write secret: %w" e), w')
      | (None, w') => (None, w')
      end
  end.

Definition get (service key : string) (w : os.World)
  : (list byte * option error) * os.World :=
  match getStoragePath service key w with
  | (_, Some e) =>
      (([], Some (Errorf_w "vault: failed to get storage path: %w" e)), w)
  | (path, None) =>
      match os.ReadFile path w with
      | (_, Some e) =>
          if os.IsNotExist e then (([], Some ErrNotFound), w)
          else (([], Some (Errorf_w "vault: failed to read secret: %w" e)), w)
      | (data, None) =>
          match base64.DecodeString base64.StdEncoding
                  (strings.TrimSpace (string_of_bytes data)) with
          | (_, Some e) =>
              (([], Some (Errorf_w "vault: failed to decode secret: %w" e)),
               w)
          | (decoded, None) => ((decoded, None), w)
          end
      end
  end.

Definition del (service key : string) (w : os.World)
  : option error * os.World :=
  match getStoragePath service key w with
  | (_, Some e) =>
      (Some (Errorf_w "vault: failed to get storage path: %w" e), w)
  | (path, None) =>
      match os.Remove path w with
      | (Some e, w') =>
          if os.IsNotExist e then (Some ErrNotFound, w')
          else (Some (Errorf_w "vault: failed to delete secret: %w" e), w')
      | (None, w') => (None, w')
      end
  end.

End Adapter.
End filestore.

Module android.

Definition getStorageDir (e : os.Env) : string * option error :=
  let dir := os.Getenv e "ANDROID_DATA" in
  if String.eqb dir EmptyString then
    match os.Getwd e with
    | (_, Some err) => (EmptyString, Some err)
    | (cwd, None) =>
        let dir := filepath.Join [cwd; ".vault-secrets"] in
        (dir, os.MkdirAll e dir)
    end
  else
    let dir := filepath.Join [dir; "vault-secrets"] in
    (dir, os.MkdirAll e dir).

Definition getStoragePath := filestore.getStoragePath getStorageDir.
Definition set := filestore.set getStorageDir.
Definition get := filestore.get getStorageDir.
Definition del := filestore.del getStorageDir.

End android.

Module ios.

Definition getStorageDir (e : os.Env) : string * option error :=
  match os.UserHomeDir e with
  | (_, Some err) => (EmptyString, Some err)
  | (home, None) =>
      let dir := filepath.Join
                   [home; "Library"; "Application Support"; "vault-secrets"] in
      (dir, os.MkdirAll e dir)
  end.

Definition getStoragePath := filestore.getStoragePath getStorageDir.
Definition set := filestore.set getStorageDir.
Definition get := filestore.get getStorageDir.
Definition del := filestore.del getStorageDir.

End ios.

(** ** macOS: the [security] command-line tool *)

Module darwin.
Section Adapter.

(** [K] is the state of the keychain, [run] the execution of a command
    against it. *)
Context {K : Type} (run : exec.Cmd -> K -> exec.Result * K).

Definition del (service key : string) (k : K) : option error * K :=
  let cmd := exec.Command "security"
               ["delete-generic-password"; "-a"; key; "-s"; service] in
  let '(r, k) := run cmd k in
  match exec.err r with
  | Some _ =>
      let errStr := exec.stderr r in
      if strings.Contains errStr "could not be found" ||
         strings.Contains errStr "SecKeychainSearchCopyNext"
      then (Some ErrNotFound, k)
      else (Some (Errorf_s "vault: failed to delete key: %s" errStr), k)
  | None => (None, k)
  end.

Definition set (service key : string) (value : list byte) (k : K)
  : option error * K :=
  (* Delete existing item first (ignore errors if it doesn't exist) *)
  let '(_, k) := del service key k in
  let encoded := base64.EncodeToString base64.StdEncoding value in
  let cmd := exec.Command "security"
               ["add-generic-password"; "-a"; key; "-s"; service;
                "-w"; encoded; "-U"] in
  let '(r, k) := run cmd k in
  match exec.err r with
  | Some _ =>
      (Some (Errorf_s "vault: failed to set key: %s" (exec.stderr r)), k)
  | None => (None, k)
  end.

Definition get (service key : string) (k : K)
  : (list byte * option error) * K :=
  let cmd := exec.Command "security"
               ["find-generic-password"; "-a"; key; "-s"; service; "-w"] in
  let '(r, k) := run cmd k in
  match exec.err r with
  | Some _ =>
      let errStr := exec.stderr r in
      if strings.Contains errStr "could not be found" ||
         strings.Contains errStr "SecKeychainSearchCopyNext"
      then (([], Some ErrNotFound), k)
      else (([], Some (Errorf_s "vault: failed to get key: %s" errStr)), k)
  | None =>
      let result := strings.TrimSpace (exec.stdout r) in
      match base64.DecodeString base64.StdEncoding result with
      | (_, Some e) =>
          (([], Some (Errorf_w "vault: failed to decode value: %w" e)), k)
      | (decoded, None) => ((decoded, None), k)
      end
  end.

End Adapter.
End darwin.

(** ** Linux: [secret-tool], with the file storage as fallback *)

Module linux.
Section Adapter.

(** [K] is the state of the Secret Service, [run] the execution of a
    command against it. *)
Context {K : Type} (run : exec.Cmd -> K -> exec.Result * K).

(** The world of the linux adapter; [lookups] counts the calls of
    [exec.LookPath] made so far. *)
Record World := {
  osw : os.World;
  keyring : K;
  lookups : nat
}.

Definition with_osw (w : World) (o : os.World) : World :=
  {| osw := o; keyring := keyring w; lookups := lookups w |}.
Definition with_keyring (w : World) (k : K) : World :=
  {| osw := osw w; keyring := k; lookups := lookups w |}.

Definition hasSecretTool (w : World) : bool * World :=
  let err := os.LookPath (os.env (osw w)) "secret-tool" in
  (match err with None => true | Some _ => false end,
   {| osw := osw w; keyring := keyring w; lookups := S (lookups w) |}).

(* Secret Service implementation using secret-tool *)
Definition setSecretTool (service key : string) (value : list byte)
    (w : World) : option error * World :=
  let cmd := {| exec.name := "secret-tool";
                exec.args := ["store"; "--label"; service +:+ "/" +:+ key;
                              "service"; service; "key"; key];
                exec.Stdin := value |} in
  let '(r, k) := run cmd (keyring w) in
  match exec.err r with
  | Some _ =>
      (Some (Errorf_s "vault: failed to set key: %s" (exec.stderr r)),
       with_keyring w k)
  | None => (None, with_keyring w k)
  end.

Definition getSecretTool (service key : string) (w : World)
  : (list byte * option error) * World :=
  let cmd := exec.Command "secret-tool"
               ["lookup"; "service"; service; "key"; key] in
  let '(r, k) := run cmd (keyring w) in
  match exec.err r with
  | Some _ =>
      if utf8.len (exec.stdout r) =? 0
      then (([], Some ErrNotFound), with_keyring w k)
      else (([], Some (Errorf_s "vault: failed to get key: %s"
                         (exec.stderr r))), with_keyring w k)
  | None =>
      let result := bytes_of_string (exec.stdout r) in
      if Z.of_nat (length result) =? 0
      then (([], Some ErrNotFound), with_keyring w k)
      else ((result, None), with_keyring w k)
  end.

Definition deleteSecretTool (service key : string) (w : World)
  : option error * World :=
  let cmd := exec.Command "secret-tool"
               ["clear"; "service"; service; "key"; key] in
  let '(r, k) := run cmd (keyring w) in
  match exec.err r with
  | Some _ =>
      (Some (Errorf_s "vault: failed to delete key: %s" (exec.stderr r)),
       with_keyring w k)
  | None => (None, with_keyring w k)
  end.

(* File-based fallback storage (XDG Base Directory compliant) *)
Definition getStorageDir (e : os.Env) : string * option error :=
  let dataHome := os.Getenv e "XDG_DATA_HOME" in
  if String.eqb dataHome EmptyString then
    match os.UserHomeDir e with
    | (_, Some err) => (EmptyString, Some err)
    | (home, None) =>
        let dataHome := filepath.Join [home; ".local"; "share"] in
        let dir := filepath.Join [dataHome; "vault-secrets"] in
        (dir, os.MkdirAll e dir)
    end
  else
    let dir := filepath.Join [dataHome; "vault-secrets"] in
    (dir, os.MkdirAll e dir).

Definition getStoragePath := filestore.getStoragePath getStorageDir.

Definition setFileStorage (service key : string) (value : list byte)
    (w : World) : option error * World :=
  let '(e, o) := filestore.set getStorageDir service key value (osw w) in
  (e, with_osw w o).

Definition getFileStorage (service key : string) (w : World)
  : (list byte * option error) * World :=
  let '(r, o) := filestore.get getStorageDir service key (osw w) in
  (r, with_osw w o).

Definition deleteFileStorage (service key : string) (w : World)
  : option error * World :=
  let '(e, o) := filestore.del getStorageDir service key (osw w) in
  (e, with_osw w o).

Definition set (service key : string) (value : list byte) (w : World)
  : option error * World :=
  (* Try secret-tool first (requires libsecret-tools package) *)
  let '(has, w) := hasSecretTool w in
  if has then setSecretTool service key value w
  else (* Fallback to encrypted file storage *)
    setFileStorage service key value w.

Definition get (service key : string) (w : World)
  : (list byte * option error) * World :=
  let '(has, w) := hasSecretTool w in
  if has then getSecretTool service key w
  else getFileStorage service key w.

Definition del (service key : string) (w : World)
  : option error * World :=
  let '(has, w) := hasSecretTool w in
  if has then deleteSecretTool service key w
  else deleteFileStorage service key w.

End Adapter.
End linux.

(** ** Windows: the retrieve operation through PowerShell *)

Module windows.

Definition dq : string := String (ascii_of_nat 34) EmptyString.

(** The PowerShell script of [get], with [credName] at both places of
    the format. *)
Definition getScript (credName : string) : string :=
    "
$output = cmdkey /list:" +:+ dq +:+ credName +:+ dq +:+
    " 2>&1
if ($output -match " +:+ dq +:+
    "NONE" +:+ dq +:+
    ") {
    exit 1
}

# Use .NET to read the credential
Add-Type -AssemblyName System.Runtime.InteropServices

$sig = @" +:+ dq +:+
    "
[DllImport(" +:+ dq +:+
    "advapi32.dll" +:+ dq +:+
    ", SetLastError = true, CharSet = CharSet.Unicode)]
public static extern bool CredRead(string target, int type, int reservedFlag, out IntPtr credentialPtr);

[DllImport(" +:+ dq +:+
    "advapi32.dll" +:+ dq +:+
    ", SetLastError = true)]
public static extern bool CredFree(IntPtr cred);
" +:+ dq +:+
    "@

$advapi32 = Add-Type -MemberDefinition $sig -Namespace " +:+ dq +:+
    "ADVAPI32" +:+ dq +:+
    " -Name " +:+ dq +:+
    "Util" +:+ dq +:+
    " -PassThru

$credPtr = [IntPtr]::Zero
$result = $advapi32::CredRead(" +:+ dq +:+ credName +:+ dq +:+
    ", 1, 0, [ref]$credPtr)

if (-not $result) {
    exit 1
}

$cred = [System.Runtime.InteropServices.Marshal]::PtrToStructure($credPtr, [Type][System.Runtime.InteropServices.ComTypes.CREDENTIAL])

# Read credential blob
$blob = New-Object byte[] $cred.CredentialBlobSize
[System.Runtime.InteropServices.Marshal]::Copy($cred.CredentialBlob, $blob, 0, $cred.CredentialBlobSize)
$password = [System.Text.Encoding]::Unicode.GetString($blob)

$advapi32::CredFree($credPtr)
Write-Output $password
".

Section Adapter.

Context {K : Type} (run : exec.Cmd -> K -> exec.Result * K).

Definition get (service key : string) (k : K)
  : (list byte * option error) * K :=
  let credName := service +:+ "/" +:+ key in
  let script := getScript credName in
  let cmd := exec.Command "powershell"
               ["-NoProfile"; "-NonInteractive"; "-Command"; script] in
  let '(r, k) := run cmd k in
  match exec.err r with
  | Some _ => (([], Some ErrNotFound), k)
  | None =>
      let result := strings.TrimSpace (exec.stdout r) in
      if String.eqb result EmptyString then (([], Some ErrNotFound), k)
      else
        match base64.DecodeString base64.StdEncoding result with
        | (_, Some e) =>
            (([], Some (Errorf_w "vault: failed to decode value: %w" e)), k)
        | (decoded, None) => ((decoded, None), k)
        end
  end.

End Adapter.
(** The PowerShell script of [set], with [credName] and [encodedValue] at
    the two places of the format. *)
Definition setScript (credName encodedValue : string) : string :=
  "
$credName = '" +:+ credName +:+
  "'
$credValue = '" +:+ encodedValue +:+
  "'
$securePassword = ConvertTo-SecureString -String $credValue -AsPlainText -Force
$credential = New-Object System.Management.Automation.PSCredential($credName, $securePassword)

# Remove existing credential if it exists
try {
    cmdkey /delete:$credName 2>$null
} catch {}

# Add new credential using cmdkey
$bytes = [System.Text.Encoding]::UTF8.GetBytes($credValue)
cmdkey /generic:$credName /user:$credName /pass:$credValue
if ($LASTEXITCODE -ne 0) {
    exit 1
}
".

Section SetDel.

Context {K : Type} (run : exec.Cmd -> K -> exec.Result * K).

(** The path of [strings.ToLower] for text outside ASCII. *)
Variable Map_ToLower : string -> string.

Definition set (service key : string) (value : list byte) (k : K)
  : option error * K :=
  let credName := service +:+ "/" +:+ key in
  let encodedValue := base64.EncodeToString base64.StdEncoding value in
  let script := setScript credName encodedValue in
  let cmd := exec.Command "powershell"
               ["-NoProfile"; "-NonInteractive"; "-Command"; script] in
  let '(r, k) := run cmd k in
  match exec.err r with
  | Some _ =>
      (Some (Errorf_s "vault: failed to set key: %s" (exec.stderr r)), k)
  | None => (None, k)
  end.

Definition del (service key : string) (k : K) : option error * K :=
  let credName := service +:+ "/" +:+ key in
  let cmd := exec.Command "cmdkey" ["/delete:" +:+ credName] in
  let '(r, k) := run cmd k in
  match exec.err r with
  | Some _ =>
      let errStr := exec.stderr r in
      if strings.Contains (strings.ToLower Map_ToLower errStr) "not found" ||
         strings.Contains (strings.ToLower Map_ToLower errStr) "none"
      then (Some ErrNotFound, k)
      else (Some (Errorf_s "vault: failed to delete key: %s" errStr), k)
  | None => (None, k)
  end.

End SetDel.

End windows.

(** ** Browser: IndexedDB

  Each request completes once, through its success or its error
  callback; the operation waits for that completion.  [D] is the state
  of the database and the record below the outcome of each request. *)

Module js.

Record IndexedDB (D : Type) := {
  (* indexedDB.open(dbName, 1): onsuccess or onerror *)
  idb_open : D -> bool;
  (* store.get(key): onerror, or onsuccess with the record's value
     field, if there is a record *)
  store_get : string -> D -> option (option string);
  (* store.put({key, value}, key): onerror, or onsuccess *)
  store_put : string -> string -> D -> option D;
  (* store.delete(key): onerror, or onsuccess *)
  store_delete : string -> D -> option D
}.
Arguments idb_open {D}.
Arguments store_get {D}.
Arguments store_put {D}.
Arguments store_delete {D}.

Section Adapter.

Context {D : Type} (idb : IndexedDB D).

(* withStore opens the database and executes fn with an object store *)
Definition withStore {A : Type} (fn : D -> (A * option error) * D)
    (nil_ : A) (d : D) : (A * option error) * D :=
  if idb_open idb d then fn d
  else ((nil_, Some (ErrorsNew "vault: failed to open IndexedDB")), d).

Definition set (service key : string) (value : list byte) (d : D)
  : option error * D :=
  let encoded := base64.EncodeToString base64.StdEncoding value in
  let storeKey := service +:+ "/" +:+ key in
  let '((_, e), d) :=
    withStore (fun d =>
      match store_put idb storeKey encoded d with
      | Some d' => ((tt, None), d')
      | None =>
          ((tt, Some (ErrorsNew "vault: failed to set key in IndexedDB")), d)
      end) tt d in
  (e, d).

Definition get (service key : string) (d : D)
  : (list byte * option error) * D :=
  let storeKey := service +:+ "/" +:+ key in
  withStore (fun d =>
    match store_get idb storeKey d with
    | None =>
        (([], Some (ErrorsNew "vault: failed to get key from IndexedDB")), d)
    | Some None => (([], Some ErrNotFound), d)
    | Some (Some encoded) =>
        match base64.DecodeString base64.StdEncoding encoded with
        | (_, Some e) => (([], Some e), d)
        | (decoded, None) => ((decoded, None), d)
        end
    end) [] d.

Definition del (service key : string) (d : D) : option error * D :=
  let storeKey := service +:+ "/" +:+ key in
  let '((_, e), d) :=
    withStore (fun d =>
      (* First check if key exists *)
      match store_get idb storeKey d with
      | None =>
          ((tt,
            Some (ErrorsNew "vault: failed to check key in IndexedDB")), d)
      | Some None => ((tt, Some ErrNotFound), d)
      | Some (Some _) =>
          (* Key exists, delete it *)
          match store_delete idb storeKey d with
          | Some d' => ((tt, None), d')
          | None =>
              ((tt,
                Some (ErrorsNew
                        "vault: failed to delete key from IndexedDB")), d)
          end
      end) tt d in
  (e, d).

End Adapter.
End js.

(** ** The public facade (vault.go) *)

Module vault.

(** The three functions a platform file provides. *)
Record Backend (W : Type) := {
  set : string -> string -> list byte -> W -> option error * W;
  get : string -> string -> W -> (list byte * option error) * W;
  del : string -> string -> W -> option error * W
}.
Arguments set {W}.
Arguments get {W}.
Arguments del {W}.

Section Facade.

Context {W : Type} (b : Backend W).

(** [Set] ([Set] is reserved, hence the underscore). *)
Definition Set_ (service key : string) (value : list byte) (w : W)
  : option error * W :=
  if String.eqb service EmptyString || String.eqb key EmptyString then
    (Some ErrInvalidKey, w)
  else if Z.of_nat (length value) =? 0 then
    (Some ErrInvalidValue, w)
  else set b service key value w.

Definition Get (service key : string) (w : W)
  : (list byte * option error) * W :=
  if String.eqb service EmptyString || String.eqb key EmptyString then
    (([], Some ErrInvalidKey), w)
  else get b service key w.

Definition Del (service key : string) (w : W) : option error * W :=
  if String.eqb service EmptyString || String.eqb key EmptyString then
    (Some ErrInvalidKey, w)
  else del b service key w.

End Facade.
End vault.

(** ** The backends, one per platform file *)

Definition file_backend (getStorageDir : os.Env -> string * option error)
  : vault.Backend os.World :=
  {| vault.set := filestore.set getStorageDir;
     vault.get := filestore.get getStorageDir;
     vault.del := filestore.del getStorageDir |}.

Definition android_backend : vault.Backend os.World :=
  {| vault.set := android.set; vault.get := android.get;
     vault.del := android.del |}.

Definition ios_backend : vault.Backend os.World :=
  {| vault.set := ios.set; vault.get := ios.get; vault.del := ios.del |}.

Definition darwin_backend {K : Type} (run : exec.Cmd -> K -> exec.Result * K)
  : vault.Backend K :=
  {| vault.set := darwin.set run; vault.get := darwin.get run;
     vault.del := darwin.del run |}.

Definition linux_backend {K : Type} (run : exec.Cmd -> K -> exec.Result * K)
  : vault.Backend (linux.World (K:=K)) :=
  {| vault.set := linux.set run; vault.get := linux.get run;
     vault.del := linux.del run |}.

Definition js_backend {D : Type} (idb : js.IndexedDB D) : vault.Backend D :=
  {| vault.set := js.set idb; vault.get := js.get idb;
     vault.del := js.del idb |}.

(** ** Observing the calls that reach a backend *)

Inductive call :=
| call_set (service key : string) (value : list byte)
| call_get (service key : string)
| call_del (service key : string).

(** [traced b] behaves as [b] and keeps a log of its invocations. *)
Definition traced {W : Type} (b : vault.Backend W)
  : vault.Backend (W * list call) :=
  {| vault.set := fun service key value '(w, log) =>
       let '(e, w') := vault.set b service key value w in
       (e, (w', log ++ [call_set service key value]));
     vault.get := fun service key '(w, log) =>
       let '(r, w') := vault.get b service key w in
       (r, (w', log ++ [call_get service key]));
     vault.del := fun service key '(w, log) =>
       let '(e, w') := vault.del b service key w in
       (e, (w', log ++ [call_del service key])) |}.

(** The arguments a backend may assume: a non-empty identity and, for
    [set], a non-empty value. *)
Definition call_ok (c : call) : Prop :=
  match c with
  | call_set service key value =>
      service <> EmptyString /\ key <> EmptyString /\ value <> []
  | call_get service key | call_del service key =>
      service <> EmptyString /\ key <> EmptyString
  end.

(** A caller's request to the facade, and a run of requests. *)
Inductive request :=
| req_Set (service key : string) (value : list byte)
| req_Get (service key : string)
| req_Del (service key : string).

Definition serve {W : Type} (b : vault.Backend W) (w : W) (r : request) : W :=
  match r with
  | req_Set service key value => snd (vault.Set_ b service key value w)
  | req_Get service key => snd (vault.Get b service key w)
  | req_Del service key => snd (vault.Del b service key w)
  end.

Definition serve_all {W : Type} (b : vault.Backend W) (rs : list request)
    (w : W) : W :=
  fold_left (serve b) rs w.

(** ** Characters of text *)

Fixpoint all_chars (P : ascii -> bool) (s : string) : bool :=
  match s with
  | EmptyString => true
  | String c rest => P c && all_chars P rest
  end.

(** ASCII white space (tab, line feed, vertical tab, form feed, carriage
    return, space), and ASCII characters that are no white space. *)
Definition is_space (c : ascii) : bool :=
  (ascii_val c <? 128) && strings.asciiSpace (ascii_val c).
Definition is_plain (c : ascii) : bool :=
  (ascii_val c <? 128) && negb (strings.asciiSpace (ascii_val c)).

(** The characters a storage file name is made of: letters, digits,
    hyphen, underscore and the equals sign. *)
Definition filename_char (c : ascii) : bool :=
  let v := ascii_val c in
  ((48 <=? v) && (v <=? 57)) || ((65 <=? v) && (v <=? 90)) ||
  ((97 <=? v) && (v <=? 122)) || (v =? 45) || (v =? 95) || (v =? 61).

(** What [filepath.Join] puts before a file name joined to [dir]: the
    cleaned directory and a separator. *)
Definition child_prefix (dir : string) : string :=
  match dir with
  | EmptyString => EmptyString
  | String c _ =>
      let rooted := Ascii.eqb c "/" in
      let out := fold_left (filepath.clean_step rooted)
                   (filepath.components dir) [] in
      (if rooted then "/"%string else EmptyString) +:+
      match out with
      | [] => EmptyString
      | _ => filepath.join_sep out +:+ "/"
      end
  end.

(** ** What the adapters expect of the external tools *)

Definition newline : string := String "010"%char EmptyString.

(** [security]: a password added for an account and a service is printed,
    followed by a newline, when it is looked up next. *)
Definition keychain_contract {K : Type}
    (run : exec.Cmd -> K -> exec.Result * K) : Prop :=
  forall account service password k r k1,
    run (exec.Command "security"
           ["add-generic-password"; "-a"; account; "-s"; service;
            "-w"; password; "-U"]) k = (r, k1) ->
    exec.err r = None ->
    exists r' k2,
      run (exec.Command "security"
             ["find-generic-password"; "-a"; account; "-s"; service; "-w"])
          k1 = (r', k2) /\
      exec.err r' = None /\
      exec.stdout r' = password +:+ newline.

(** [secret-tool]: the secret read from standard input by [store] is
    written as it is by the next [lookup] of the same attributes. *)
Definition secret_service_contract {K : Type}
    (run : exec.Cmd -> K -> exec.Result * K) : Prop :=
  forall label service key value k r k1,
    run {| exec.name := "secret-tool";
           exec.args := ["store"; "--label"; label;
                         "service"; service; "key"; key];
           exec.Stdin := value |} k = (r, k1) ->
    exec.err r = None ->
    exists r' k2,
      run (exec.Command "secret-tool"
             ["lookup"; "service"; service; "key"; key]) k1 = (r', k2) /\
      exec.err r' = None /\
      exec.stdout r' = string_of_bytes value.

(** ** Reference models of the tools and of an environment *)

Definition succeeded (out : string) : exec.Result :=
  {| exec.err := None; exec.stdout := out; exec.stderr := EmptyString |}.
Definition failed (code : Z) (out msg : string) : exec.Result :=
  {| exec.err := Some (ExitError code); exec.stdout := out;
     exec.stderr := msg |}.

(** A keychain that maps (service, account) to a password. *)
Definition security (cmd : exec.Cmd) (k : gmap (string * string) string)
  : exec.Result * gmap (string * string) string :=
  let missing :=
    failed 44 EmptyString
      "security: SecKeychainSearchCopyNext: The specified item could not be found in the keychain." in
  match exec.args cmd with
  | [verb; _; account; _; service; _; password; _] =>
      if String.eqb verb "add-generic-password"
      then (succeeded EmptyString, <[(service, account) := password]> k)
      else (failed 2 EmptyString "security: unknown command", k)
  | [verb; _; account; _; service; _] =>
      if String.eqb verb "find-generic-password" then
        match k !! (service, account) with
        | Some password => (succeeded (password +:+ newline), k)
        | None => (missing, k)
        end
      else (failed 2 EmptyString "security: unknown command", k)
  | [verb; _; account; _; service] =>
      if String.eqb verb "delete-generic-password" then
        match k !! (service, account) with
        | Some _ => (succeeded EmptyString, delete (service, account) k)
        | None => (missing, k)
        end
      else (failed 2 EmptyString "security: unknown command", k)
  | _ => (failed 2 EmptyString "security: unknown command", k)
  end.

(** A Secret Service that maps (service, key) to a secret; [clear] exits
    with status 0 whether or not an item matched. *)
Definition secret_tool (cmd : exec.Cmd) (k : gmap (string * string) (list byte))
  : exec.Result * gmap (string * string) (list byte) :=
  match exec.args cmd with
  | [verb; _; _; _; service; _; key] =>
      if String.eqb verb "store"
      then (succeeded EmptyString, <[(service, key) := exec.Stdin cmd]> k)
      else (failed 2 EmptyString "secret-tool: unknown command", k)
  | [verb; _; service; _; key] =>
      if String.eqb verb "lookup" then
        match k !! (service, key) with
        | Some secret => (succeeded (string_of_bytes secret), k)
        | None => (failed 1 EmptyString EmptyString, k)
        end
      else if String.eqb verb "clear"
      then (succeeded EmptyString, delete (service, key) k)
      else (failed 2 EmptyString "secret-tool: unknown command", k)
  | _ => (failed 2 EmptyString "secret-tool: unknown command", k)
  end.

(** An environment without variables, with a home and a working
    directory, where directories can be created; [tool] tells whether
    executables are found. *)
Definition plain_env (tool : bool) : os.Env :=
  {| os.Getenv := fun _ => EmptyString;
     os.Getwd := ("/data/app", None);
     os.UserHomeDir := ("/home/user", None);
     os.MkdirAll := fun _ => None;
     os.LookPath := fun file =>
       if tool then None
       else Some (ExecError "executable file not found in $PATH") |}.

Definition fresh_world (tool : bool) : os.World :=
  {| os.env := plain_env tool; os.fs := ∅ |}.

Definition fresh_linux (tool : bool)
  : linux.World (K:=gmap (string * string) (list byte)) :=
  {| linux.osw := fresh_world tool; linux.keyring := ∅; linux.lookups := 0 |}.

(** The tool appears (or disappears) between two calls. *)
Definition set_tool {K : Type} (tool : bool) (w : linux.World (K:=K))
  : linux.World (K:=K) :=
  {| linux.osw := {| os.env := plain_env tool; os.fs := os.fs (linux.osw w) |};
     linux.keyring := linux.keyring w;
     linux.lookups := linux.lookups w |}.

Definition secret : list byte := bytes_of_string "super-secret".

(** The outcome of the probe for [secret-tool] in a world, and the world
    once the probe is made. *)
Definition available {K : Type} (w : linux.World (K:=K)) : bool :=
  match os.LookPath (os.env (linux.osw w)) "secret-tool" with
  | None => true
  | Some _ => false
  end.

Definition probed {K : Type} (w : linux.World (K:=K)) : linux.World (K:=K) :=
  snd (linux.hasSecretTool w).

(** Every error of a retrieve operation is [ErrNotFound] or a backend
    failure, and comes with no value; likewise for a remove operation. *)
Definition get_result_ok (r : list byte * option error) : Prop :=
  match snd r with
  | None => True
  | Some e => fst r = [] /\ (e = ErrNotFound \/ BackendFailure e)
  end.

Definition del_result_ok (r : option error) : Prop :=
  match r with
  | None => True
  | Some e => e = ErrNotFound \/ BackendFailure e
  end.

(** Two ways PowerShell can fail for reasons other than absence: the
    script runs into a permission error, or the executable cannot be
    started at all. *)
Definition access_denied (cmd : exec.Cmd) (k : unit) : exec.Result * unit :=
  ({| exec.err := Some (ExitError 5);
      exec.stdout := "CredRead";
      exec.stderr := "Access is denied." |}, k).

Definition not_executable (cmd : exec.Cmd) (k : unit) : exec.Result * unit :=
  ({| exec.err := Some (ExecError "exec: powershell: permission denied");
      exec.stdout := EmptyString;
      exec.stderr := EmptyString |}, k).

(** A world whose storage directory holds a truncated file: the text
    decodes to three bytes before the decoder fails. *)
Definition corrupt_world : os.World :=
  {| os.env := plain_env false;
     os.fs := {[ "/data/app/.vault-secrets/bXlhcHAvYXBpLWtleQ=="%string
                 := os.File (bytes_of_string "aGVsbG8") ]} |}.

(** A character that base64 text never holds: outside the alphabet, no
    padding, no line break. *)
Definition foreign_char (c : ascii) : bool :=
  (base64.decodeMap base64.StdEncoding c =? 255) &&
  negb (base64.is_newline c) && negb (base64.is_pad base64.StdEncoding c).

(** The requests that pass the validation of the facade, and the backend
    call each of them stands for. *)
Definition request_valid (r : request) : bool :=
  match r with
  | req_Set service key value =>
      negb (String.eqb service EmptyString) &&
      negb (String.eqb key EmptyString) &&
      negb (Z.of_nat (length value) =? 0)
  | req_Get service key | req_Del service key =>
      negb (String.eqb service EmptyString) &&
      negb (String.eqb key EmptyString)
  end.

Definition call_of (r : request) : call :=
  match r with
  | req_Set service key value => call_set service key value
  | req_Get service key => call_get service key
  | req_Del service key => call_del service key
  end.

(** [cmdkey] fails and reports that there is no such element. *)
Definition element_not_found (cmd : exec.Cmd) (k : unit)
  : exec.Result * unit :=
  ({| exec.err := Some (ExitError 1);
      exec.stdout := EmptyString;
      exec.stderr := "CMDKEY: Element not found." |}, k).

(** A database that cannot be opened. *)
Definition closed_db : js.IndexedDB unit :=
  {| js.idb_open := fun _ => false;
     js.store_get := fun _ _ => None;
     js.store_put := fun _ _ _ => None;
     js.store_delete := fun _ _ => None |}.

(** A tool that succeeds and prints [out]. *)
Definition prints (out : string) (cmd : exec.Cmd) (k : unit)
  : exec.Result * unit :=
  (succeeded out, k).

Definition crlf : string := String "013"%char (String "010"%char EmptyString).

(** A text without its line breaks (carriage returns and line feeds). *)
Fixpoint strip_newlines (s : string) : string :=
  match s with
  | EmptyString => EmptyString
  | String c rest =>
      if base64.is_newline c then strip_newlines rest
      else String c (strip_newlines rest)
  end.

(** * Properties *)

Lemma byte_val_range (b : byte) : 0 <= byte_val b < 256.
Proof.
  unfold byte_val. pose proof (Byte.to_N_bounded b). lia.
Qed.

Lemma to_byte_mod (x : Z) (b : byte) : x mod 256 = byte_val b -> to_byte x = b.
Proof.
  intros H. unfold to_byte.
  change 255 with (Z.ones 8). rewrite Z.land_ones by lia.
  change (2 ^ 8) with 256. rewrite H. unfold byte_val.
  rewrite N2Z.id, Byte.of_to_N. reflexivity.
Qed.

Lemma land_shiftl_small (q b n : Z) :
  0 <= n -> 0 <= b < 2 ^ n -> Z.land (Z.shiftl q n) b = 0.
Proof.
  intros Hn Hb. apply Z.bits_inj'. intros i Hi.
  rewrite Z.land_spec, Z.bits_0.
  destruct (Z.ltb_spec i n) as [Hlt|Hge].
  - rewrite Z.shiftl_spec_low by lia. reflexivity.
  - destruct (Z.eq_dec b 0) as [->|Hnz].
    + rewrite Z.bits_0. apply andb_false_r.
    + rewrite (Z.bits_above_log2 b i); [apply andb_false_r|lia|].
      apply Z.log2_lt_pow2; [lia|].
      assert (2 ^ n <= 2 ^ i) by (apply Z.pow_le_mono_r; lia). lia.
Qed.

Lemma lor_disjoint (q b n : Z) :
  0 <= n -> 0 <= b < 2 ^ n -> Z.lor (q * 2 ^ n) b = q * 2 ^ n + b.
Proof.
  intros Hn Hb. rewrite <- Z.shiftl_mul_pow2 by lia.
  pose proof (land_shiftl_small q b n Hn Hb) as H0.
  rewrite <- Z.lxor_lor by exact H0.
  symmetry. apply Z.add_nocarry_lxor. exact H0.
Qed.

Lemma sextet (v k : Z) : 0 <= k -> Z.land (Z.shiftr v k) 63 = (v / 2 ^ k) mod 64.
Proof.
  intros Hk. rewrite Z.shiftr_div_pow2 by lia.
  change 63 with (Z.ones 6). rewrite Z.land_ones by lia. reflexivity.
Qed.

Lemma pack3 (x y z : Z) :
  0 <= x < 256 -> 0 <= y < 256 -> 0 <= z < 256 ->
  Z.lor (Z.lor (Z.shiftl x 16) (Z.shiftl y 8)) z = x * 65536 + y * 256 + z.
Proof.
  intros Hx Hy Hz. rewrite !Z.shiftl_mul_pow2 by lia.
  rewrite (lor_disjoint x (y * 2 ^ 8) 16) by lia.
  replace (x * 2 ^ 16 + y * 2 ^ 8) with ((x * 256 + y) * 2 ^ 8) by lia.
  rewrite lor_disjoint by lia. lia.
Qed.

Lemma pack2 (x y : Z) :
  0 <= x < 256 -> 0 <= y < 256 ->
  Z.lor (Z.shiftl x 16) (Z.shiftl y 8) = x * 65536 + y * 256.
Proof.
  intros Hx Hy. rewrite !Z.shiftl_mul_pow2 by lia.
  rewrite (lor_disjoint x (y * 2 ^ 8) 16) by lia. lia.
Qed.

Lemma pack4 (a b c d : Z) :
  0 <= a < 64 -> 0 <= b < 64 -> 0 <= c < 64 -> 0 <= d < 64 ->
  Z.lor (Z.lor (Z.lor (Z.shiftl a 18) (Z.shiftl b 12)) (Z.shiftl c 6)) d
  = a * 262144 + b * 4096 + c * 64 + d.
Proof.
  intros Ha Hb Hc Hd. rewrite !Z.shiftl_mul_pow2 by lia.
  rewrite (lor_disjoint a (b * 2 ^ 12) 18) by lia.
  replace (a * 2 ^ 18 + b * 2 ^ 12) with ((a * 64 + b) * 2 ^ 12) by lia.
  rewrite (lor_disjoint (a * 64 + b) (c * 2 ^ 6) 12) by lia.
  replace ((a * 64 + b) * 2 ^ 12 + c * 2 ^ 6)
    with (((a * 64 + b) * 64 + c) * 2 ^ 6) by lia.
  rewrite lor_disjoint by lia. lia.
Qed.

Lemma list_ind3 {A : Type} (P : list A -> Prop) :
  P [] -> (forall a, P [a]) -> (forall a b, P [a; b]) ->
  (forall a b c l, P l -> P (a :: b :: c :: l)) ->
  forall l, P l.
Proof.
  intros H0 H1 H2 H3.
  fix IH 1. intros [|a [|b [|c l]]];
    [exact H0 | apply H1 | apply H2 | apply H3; apply IH].
Qed.

Ltac split_bytes :=
  repeat match goal with
         | |- (_, _) = (_, _) => f_equal
         | |- _ ++ _ = _ ++ _ => f_equal
         | |- _ :: _ = _ :: _ => f_equal
         end.

Section Base64Roundtrip.

Import base64.

Variable enc : Encoding.
Variable p : ascii.
Hypothesis enc_pad : padChar enc = Some p.
Hypothesis enc_lax : strict enc = false.
Hypothesis pad_map : decodeMap enc p = 255.
Hypothesis pad_nl : is_newline p = false.
Hypothesis enc_map :
  forall v, 0 <= v < 64 -> decodeMap enc (encode_at enc v) = v.

Lemma Decode_sextet v rest si j d0 d1 d2 dst :
  0 <= v < 64 ->
  Decode enc (String (encode_at enc v) rest) si j d0 d1 d2 dst =
  match j with
  | 0%nat => Decode enc rest (si + 1) 1 v 0 0 dst
  | 1%nat => Decode enc rest (si + 1) 2 d0 v 0 dst
  | 2%nat => Decode enc rest (si + 1) 3 d0 d1 v dst
  | _ =>
      match convert enc d0 d1 d2 v 4 (si + 1) None dst with
      | (dst', None) => Decode enc rest (si + 1) 0 0 0 0 dst'
      | (dst', Some e) => (dst', Some e)
      end
  end.
Proof.
  intros Hv. cbn [Decode]. rewrite (enc_map v Hv).
  destruct (Z.eqb_spec v 255) as [E|_]; [lia|]. reflexivity.
Qed.

Lemma is_pad_p : is_pad enc p = true.
Proof. unfold is_pad. rewrite enc_pad. apply Ascii.eqb_refl. Qed.

Lemma Decode_pad2 si d0 d1 d2 dst :
  Decode enc (String p (String p EmptyString)) si 2 d0 d1 d2 dst =
  convert enc d0 d1 0 0 2 (si + 1 + 1) None dst.
Proof.
  cbn [Decode skip_newlines]. rewrite pad_map, !pad_nl, !is_pad_p.
  reflexivity.
Qed.

Lemma Decode_pad1 si d0 d1 d2 dst :
  Decode enc (String p EmptyString) si 3 d0 d1 d2 dst =
  convert enc d0 d1 d2 0 3 (si + 1) None dst.
Proof.
  cbn [Decode]. rewrite pad_map, pad_nl, is_pad_p. reflexivity.
Qed.

Lemma sextet_range (v k : Z) : 0 <= k -> 0 <= Z.land (Z.shiftr v k) 63 < 64.
Proof.
  intros Hk. rewrite sextet by lia. apply Z.mod_pos_bound. lia.
Qed.

Lemma Decode_Encode (src : list byte) :
  forall si dst,
    Decode enc (EncodeToString enc src) si 0 0 0 0 dst = (dst ++ src, None).
Proof.
  induction src as [|b0|b0 b1|b0 b1 b2 rest IH] using list_ind3;
    intros si dst.
  - cbn. rewrite app_nil_r. reflexivity.
  - pose proof (byte_val_range b0) as R0.
    cbn [EncodeToString]. unfold pad. rewrite enc_pad. cbn [String.append].
    rewrite !Decode_sextet by (apply sextet_range; lia).
    rewrite Decode_pad2. unfold convert. rewrite enc_lax. cbn [andb].
    rewrite pack4 by (try apply sextet_range; lia).
    rewrite !sextet by lia. rewrite Z.shiftl_mul_pow2 by lia.
    split_bytes. apply to_byte_mod.
    rewrite Z.shiftr_div_pow2 by lia.
    change (2 ^ 16) with 65536. change (2 ^ 18) with 262144.
    change (2 ^ 12) with 4096.
    Z.div_mod_to_equations. lia.
  - pose proof (byte_val_range b0) as R0.
    pose proof (byte_val_range b1) as R1.
    cbn [EncodeToString]. unfold pad. rewrite enc_pad.
    rewrite !Decode_sextet by (apply sextet_range; lia).
    rewrite Decode_pad1. unfold convert. rewrite enc_lax. cbn [andb].
    rewrite pack4 by (try apply sextet_range; lia).
    rewrite !sextet by lia. rewrite pack2 by lia.
    split_bytes; apply to_byte_mod;
      rewrite Z.shiftr_div_pow2 by lia;
      change (2 ^ 16) with 65536; change (2 ^ 18) with 262144;
      change (2 ^ 12) with 4096; change (2 ^ 8) with 256;
      change (2 ^ 6) with 64;
      Z.div_mod_to_equations; lia.
  - pose proof (byte_val_range b0) as R0.
    pose proof (byte_val_range b1) as R1.
    pose proof (byte_val_range b2) as R2.
    cbn [EncodeToString].
    rewrite !Decode_sextet by (try apply sextet_range; lia).
    replace (Z.land (Z.lor (Z.lor (Z.shiftl (byte_val b0) 16)
                                   (Z.shiftl (byte_val b1) 8)) (byte_val b2)) 63)
      with (Z.land (Z.shiftr (Z.lor (Z.lor (Z.shiftl (byte_val b0) 16)
                                   (Z.shiftl (byte_val b1) 8)) (byte_val b2)) 0) 63)
      by (rewrite Z.shiftr_0_r; reflexivity).
    rewrite !Decode_sextet by (try apply sextet_range; lia).
    unfold convert.
    rewrite pack4 by (try apply sextet_range; lia).
    rewrite !sextet by lia. rewrite pack3 by lia.
    rewrite IH. rewrite <- app_assoc. cbn [app].
    split_bytes; apply to_byte_mod;
      rewrite Z.shiftr_div_pow2 by lia;
      change (2 ^ 16) with 65536; change (2 ^ 18) with 262144;
      change (2 ^ 12) with 4096; change (2 ^ 8) with 256;
      change (2 ^ 6) with 64; change (2 ^ 0) with 1;
      Z.div_mod_to_equations; lia.
Qed.

End Base64Roundtrip.

Lemma app_String c s t : String c s +:+ t = String c (s +:+ t).
Proof. reflexivity. Qed.

Lemma app_Empty t : EmptyString +:+ t = t.
Proof. reflexivity. Qed.

Lemma all_chars_app P s t :
  all_chars P (s +:+ t) = all_chars P s && all_chars P t.
Proof.
  induction s as [|c s IH]; cbn [String.append all_chars]; [reflexivity|].
  rewrite app_String. cbn [all_chars]. rewrite IH. apply andb_assoc.
Qed.

Lemma list_ascii_app s t :
  list_ascii_of_string (s +:+ t) =
  list_ascii_of_string s ++ list_ascii_of_string t.
Proof.
  induction s as [|c s IH]; [reflexivity|].
  rewrite app_String. cbn [list_ascii_of_string app]. now rewrite IH.
Qed.

Lemma all_chars_Forall P s :
  all_chars P s = true <-> Forall (fun c => P c = true) (list_ascii_of_string s).
Proof.
  induction s as [|c s IH]; cbn.
  - split; auto.
  - rewrite andb_true_iff, Forall_cons_iff, IH. reflexivity.
Qed.

Lemma TrimSpace_start_spaces lead s :
  all_chars is_space lead = true ->
  strings.TrimSpace_start (lead +:+ s) = strings.TrimSpace_start s.
Proof.
  induction lead as [|c lead IH]; [reflexivity|].
  rewrite app_String. cbn [all_chars].
  intros H. apply andb_true_iff in H as [Hc Hl].
  unfold is_space in Hc. apply andb_true_iff in Hc as [Ha Hs].
  cbn [strings.TrimSpace_start]. unfold utf8.RuneSelf.
  destruct (Z.geb_spec (ascii_val c) 128) as [G|_].
  - apply Z.ltb_lt in Ha. lia.
  - rewrite Hs. apply IH, Hl.
Qed.

Lemma TrimSpace_start_plain c s :
  is_plain c = true ->
  strings.TrimSpace_start (String c s) = inr (String c s).
Proof.
  intros H. unfold is_plain in H. apply andb_true_iff in H as [Ha Hs].
  cbn [strings.TrimSpace_start]. unfold utf8.RuneSelf.
  destruct (Z.geb_spec (ascii_val c) 128) as [G|_].
  - apply Z.ltb_lt in Ha. lia.
  - apply negb_true_iff in Hs. rewrite Hs. reflexivity.
Qed.

Lemma TrimSpace_start_all_spaces s :
  all_chars is_space s = true -> strings.TrimSpace_start s = inr EmptyString.
Proof.
  intros H. pose proof (TrimSpace_start_spaces s EmptyString H) as E.
  replace (s +:+ EmptyString) with s in E; [exact E|].
  clear. induction s as [|c s IH]; [reflexivity|].
  rewrite app_String, <- IH. reflexivity.
Qed.

Lemma TrimSpace_stop_spaces sp body :
  Forall (fun c => is_space c = true) sp ->
  Forall (fun c => is_plain c = true) body ->
  strings.TrimSpace_stop (sp ++ body) = inr body.
Proof.
  intros Hsp Hb. induction Hsp as [|c sp Hc _ IH]; cbn [app].
  - destruct Hb as [|c body Hc _]; [reflexivity|].
    unfold is_plain in Hc. apply andb_true_iff in Hc as [Ha Hs].
    cbn [strings.TrimSpace_stop]. unfold utf8.RuneSelf.
    destruct (Z.geb_spec (ascii_val c) 128) as [G|_].
    + apply Z.ltb_lt in Ha. lia.
    + apply negb_true_iff in Hs. rewrite Hs. reflexivity.
  - unfold is_space in Hc. apply andb_true_iff in Hc as [Ha Hs].
    cbn [strings.TrimSpace_stop]. unfold utf8.RuneSelf.
    destruct (Z.geb_spec (ascii_val c) 128) as [G|_].
    + apply Z.ltb_lt in Ha. lia.
    + rewrite Hs. exact IH.
Qed.

Lemma TrimSpace_plain lead body trail :
  all_chars is_space lead = true ->
  all_chars is_plain body = true ->
  all_chars is_space trail = true ->
  strings.TrimSpace (lead +:+ body +:+ trail) = body.
Proof.
  intros Hl Hb Ht. unfold strings.TrimSpace.
  rewrite TrimSpace_start_spaces by exact Hl.
  destruct body as [|c body].
  - rewrite app_Empty, TrimSpace_start_all_spaces by exact Ht.
    reflexivity.
  - rewrite app_String. cbn [all_chars] in Hb.
    apply andb_true_iff in Hb as [Hc Hb].
    rewrite TrimSpace_start_plain by exact Hc.
    change (String c (body +:+ trail)) with (String c body +:+ trail).
    rewrite list_ascii_app, rev_app_distr.
    rewrite TrimSpace_stop_spaces.
    + rewrite rev_involutive. apply string_of_list_ascii_of_string.
    + apply Forall_rev. apply all_chars_Forall. exact Ht.
    + apply Forall_rev. apply all_chars_Forall. cbn [all_chars].
      rewrite Hc, Hb. reflexivity.
Qed.

Lemma sextet_forall (f : Z -> bool) :
  forallb (fun n => f (Z.of_nat n)) (seq 0 64) = true ->
  forall v, 0 <= v < 64 -> f v = true.
Proof.
  intros H v Hv. rewrite forallb_forall in H.
  rewrite <- (Z2Nat.id v) by lia. apply H. apply in_seq. lia.
Qed.

Lemma Encode_chars (enc : base64.Encoding) (P : ascii -> bool) :
  (forall v, 0 <= v < 64 -> P (base64.encode_at enc v) = true) ->
  all_chars P (base64.pad enc) = true ->
  forall src, all_chars P (base64.EncodeToString enc src) = true.
Proof.
  intros Hv Hp.
  assert (Hs : forall x k, 0 <= k ->
            P (base64.encode_at enc (Z.land (Z.shiftr x k) 63)) = true)
    by (intros; apply Hv, sextet_range; assumption).
  assert (H0 : forall x, P (base64.encode_at enc (Z.land x 63)) = true)
    by (intros x; rewrite <- (Z.shiftr_0_r x); apply Hs; lia).
  induction src as [|b0|b0 b1|b0 b1 b2 rest IH] using list_ind3;
    cbn [base64.EncodeToString all_chars];
    rewrite ?all_chars_app, ?Hs, ?H0, ?Hp, ?IH by lia; reflexivity.
Qed.

Lemma StdEncoding_map v :
  0 <= v < 64 ->
  base64.decodeMap base64.StdEncoding (base64.encode_at base64.StdEncoding v) = v.
Proof.
  intros Hv. apply Z.eqb_eq.
  apply (sextet_forall (fun v => base64.decodeMap base64.StdEncoding
                           (base64.encode_at base64.StdEncoding v) =? v));
    [vm_compute; reflexivity | exact Hv].
Qed.

Lemma URLEncoding_map v :
  0 <= v < 64 ->
  base64.decodeMap base64.URLEncoding (base64.encode_at base64.URLEncoding v) = v.
Proof.
  intros Hv. apply Z.eqb_eq.
  apply (sextet_forall (fun v => base64.decodeMap base64.URLEncoding
                           (base64.encode_at base64.URLEncoding v) =? v));
    [vm_compute; reflexivity | exact Hv].
Qed.

Lemma StdEncoding_roundtrip (x : list byte) :
  base64.DecodeString base64.StdEncoding
    (base64.EncodeToString base64.StdEncoding x) = (x, None).
Proof.
  unfold base64.DecodeString.
  apply (Decode_Encode base64.StdEncoding base64.StdPadding);
    try reflexivity. exact StdEncoding_map.
Qed.

Lemma URLEncoding_roundtrip (x : list byte) :
  base64.DecodeString base64.URLEncoding
    (base64.EncodeToString base64.URLEncoding x) = (x, None).
Proof.
  unfold base64.DecodeString.
  apply (Decode_Encode base64.URLEncoding base64.StdPadding);
    try reflexivity. exact URLEncoding_map.
Qed.

Lemma StdEncoding_plain (x : list byte) :
  all_chars is_plain (base64.EncodeToString base64.StdEncoding x) = true.
Proof.
  apply Encode_chars; [|reflexivity].
  apply (sextet_forall
           (fun v => is_plain (base64.encode_at base64.StdEncoding v))).
  vm_compute. reflexivity.
Qed.

Lemma TrimSpace_encoded (x : list byte) :
  strings.TrimSpace (base64.EncodeToString base64.StdEncoding x)
  = base64.EncodeToString base64.StdEncoding x.
Proof.
  pose proof (TrimSpace_plain EmptyString
                (base64.EncodeToString base64.StdEncoding x) EmptyString
                eq_refl (StdEncoding_plain x) eq_refl) as H.
  rewrite app_Empty in H.
  replace (base64.EncodeToString base64.StdEncoding x +:+ EmptyString)
    with (base64.EncodeToString base64.StdEncoding x) in H; [exact H|].
  generalize (base64.EncodeToString base64.StdEncoding x).
  intros s; induction s as [|c s IH]; [reflexivity|].
  rewrite app_String, <- IH. reflexivity.
Qed.

(** C8.  The base64 transport encoding and its decoding are mutually
    inverse: decoding the encoding of any byte sequence [x] (empty,
    all-zero, non-printable, ...) gives [x] back without error; and
    trailing ASCII white space added to the encoded text is stripped by
    [TrimSpace] before decoding, as the retrieve operations do, so that
    the recovered bytes are still [x]. *)
Theorem transport_roundtrip (x : list byte) :
  base64.DecodeString base64.StdEncoding
    (base64.EncodeToString base64.StdEncoding x) = (x, None) /\
  forall ws : string,
    all_chars is_space ws = true ->
    base64.DecodeString base64.StdEncoding
      (strings.TrimSpace (base64.EncodeToString base64.StdEncoding x +:+ ws))
    = (x, None).
Proof.
  split; [apply StdEncoding_roundtrip|].
  intros ws Hws.
  pose proof (TrimSpace_plain EmptyString _ ws eq_refl
                (StdEncoding_plain x) Hws) as H.
  rewrite app_Empty in H. rewrite H. apply StdEncoding_roundtrip.
Qed.

Lemma transport_roundtrip_witness :
  base64.DecodeString base64.StdEncoding
    (strings.TrimSpace
       (base64.EncodeToString base64.StdEncoding [x00; xff; x80] +:+ newline))
  = ([x00; xff; x80], None).
Proof.
  apply (proj2 (transport_roundtrip [x00; xff; x80]) newline).
  reflexivity.
Defined.

(** * Facade *)

Lemma eqb_empty_false (s : string) :
  s <> EmptyString -> String.eqb s EmptyString = false.
Proof. intros H. apply String.eqb_neq. exact H. Qed.

Lemma length_zero_nil {A : Type} (l : list A) :
  (Z.of_nat (length l) =? 0) = true <-> l = [].
Proof.
  destruct l; cbn; split; intros H; try reflexivity; try discriminate.
Qed.

Section FacadeLemmas.

Context {W : Type} (b : vault.Backend W).

Lemma Set_invalid_key service key value w :
  service = EmptyString \/ key = EmptyString ->
  vault.Set_ b service key value w = (Some ErrInvalidKey, w).
Proof.
  intros [-> | ->]; unfold vault.Set_; cbn [String.eqb orb];
    rewrite ?orb_true_r; reflexivity.
Qed.

Lemma Get_invalid_key service key w :
  service = EmptyString \/ key = EmptyString ->
  vault.Get b service key w = (([], Some ErrInvalidKey), w).
Proof.
  intros [-> | ->]; unfold vault.Get; cbn [String.eqb orb];
    rewrite ?orb_true_r; reflexivity.
Qed.

Lemma Del_invalid_key service key w :
  service = EmptyString \/ key = EmptyString ->
  vault.Del b service key w = (Some ErrInvalidKey, w).
Proof.
  intros [-> | ->]; unfold vault.Del; cbn [String.eqb orb];
    rewrite ?orb_true_r; reflexivity.
Qed.

Lemma Set_invalid_value service key w :
  service <> EmptyString -> key <> EmptyString ->
  vault.Set_ b service key [] w = (Some ErrInvalidValue, w).
Proof.
  intros Hs Hk. unfold vault.Set_.
  rewrite (eqb_empty_false _ Hs), (eqb_empty_false _ Hk). reflexivity.
Qed.

Lemma Set_valid service key value w :
  service <> EmptyString -> key <> EmptyString -> value <> [] ->
  vault.Set_ b service key value w = vault.set b service key value w.
Proof.
  intros Hs Hk Hv. unfold vault.Set_.
  rewrite (eqb_empty_false _ Hs), (eqb_empty_false _ Hk). cbn [orb].
  destruct (Z.of_nat (length value) =? 0) eqn:E; [|reflexivity].
  apply length_zero_nil in E. contradiction.
Qed.

Lemma Get_valid service key w :
  service <> EmptyString -> key <> EmptyString ->
  vault.Get b service key w = vault.get b service key w.
Proof.
  intros Hs Hk. unfold vault.Get.
  rewrite (eqb_empty_false _ Hs), (eqb_empty_false _ Hk). reflexivity.
Qed.

Lemma Del_valid service key w :
  service <> EmptyString -> key <> EmptyString ->
  vault.Del b service key w = vault.del b service key w.
Proof.
  intros Hs Hk. unfold vault.Del.
  rewrite (eqb_empty_false _ Hs), (eqb_empty_false _ Hk). reflexivity.
Qed.

(** Each request either leaves the log as it is or adds one call with
    valid arguments. *)
Lemma serve_traced_log (r : request) (w : W) (log : list call) :
  Forall call_ok log ->
  Forall call_ok (snd (serve (traced b) (w, log) r)).
Proof.
  intros Hlog. destruct r as [service key value|service key|service key];
    cbn [serve].
  - unfold vault.Set_.
    destruct (String.eqb_spec service EmptyString) as [|Hs];
      [exact Hlog|].
    destruct (String.eqb_spec key EmptyString) as [|Hk]; [exact Hlog|].
    cbn [orb].
    destruct (Z.of_nat (length value) =? 0) eqn:E; [exact Hlog|].
    cbn. destruct (vault.set b service key value w) as [e w']. cbn.
    apply Forall_app. split; [exact Hlog|].
    constructor; [|constructor]. cbn. repeat split; try assumption.
    intros ->. discriminate E.
  - unfold vault.Get.
    destruct (String.eqb_spec service EmptyString) as [|Hs];
      [exact Hlog|].
    destruct (String.eqb_spec key EmptyString) as [|Hk]; [exact Hlog|].
    cbn. destruct (vault.get b service key w) as [e w']. cbn.
    apply Forall_app. split; [exact Hlog|].
    constructor; [|constructor]. cbn. split; assumption.
  - unfold vault.Del.
    destruct (String.eqb_spec service EmptyString) as [|Hs];
      [exact Hlog|].
    destruct (String.eqb_spec key EmptyString) as [|Hk]; [exact Hlog|].
    cbn. destruct (vault.del b service key w) as [e w']. cbn.
    apply Forall_app. split; [exact Hlog|].
    constructor; [|constructor]. cbn. split; assumption.
Qed.

Lemma serve_all_traced_log (rs : list request) :
  forall (w : W) (log : list call),
    Forall call_ok log ->
    Forall call_ok (snd (serve_all (traced b) rs (w, log))).
Proof.
  induction rs as [|r rs IH]; intros w log Hlog; [exact Hlog|].
  cbn [serve_all fold_left].
  pose proof (serve_traced_log r w log Hlog) as H.
  destruct (serve (traced b) (w, log) r) as [w' log'].
  apply IH. exact H.
Qed.

End FacadeLemmas.

(** C1.  For every backend [b]: [Set], [Get] and [Del] with an empty
    service or an empty key return [ErrInvalidKey] and leave the world as
    it is (for [traced b] this includes the log: no backend function was
    invoked); [Set] with a non-empty identity and an empty value returns
    [ErrInvalidValue], again without touching the world; and in every run
    of requests through the facade each call that reaches the backend has
    a non-empty service and key and, for [set], a non-empty value. *)
Theorem facade_validates_before_backend {W : Type} (b : vault.Backend W) :
  (forall service key value w,
      service = EmptyString \/ key = EmptyString ->
      vault.Set_ b service key value w = (Some ErrInvalidKey, w) /\
      vault.Get b service key w = (([], Some ErrInvalidKey), w) /\
      vault.Del b service key w = (Some ErrInvalidKey, w)) /\
  (forall service key w,
      service <> EmptyString -> key <> EmptyString ->
      vault.Set_ b service key [] w = (Some ErrInvalidValue, w)) /\
  (forall (rs : list request) (w : W),
      Forall call_ok (snd (serve_all (traced b) rs (w, [])))).
Proof.
  split; [|split].
  - intros service key value w H. repeat split.
    + apply Set_invalid_key, H.
    + apply Get_invalid_key, H.
    + apply Del_invalid_key, H.
  - intros. apply Set_invalid_value; assumption.
  - intros rs w. apply serve_all_traced_log. constructor.
Qed.

Lemma facade_validates_before_backend_witness :
  vault.Set_ (traced android_backend) EmptyString "api-key" secret
    (fresh_world false, [])
  = (Some ErrInvalidKey, (fresh_world false, [])) /\
  vault.Set_ (traced android_backend) "myapp" "api-key" []
    (fresh_world false, [])
  = (Some ErrInvalidValue, (fresh_world false, [])).
Proof.
  destruct (facade_validates_before_backend (traced android_backend))
    as (Hkey & Hval & _).
  split.
  - apply (Hkey EmptyString "api-key" secret). left. reflexivity.
  - apply Hval; discriminate.
Defined.

(** * The file adapters *)

Section FileStore.

Variable getStorageDir : os.Env -> string * option error.

Lemma getStoragePath_env service key (w w' : os.World) :
  os.env w' = os.env w ->
  filestore.getStoragePath getStorageDir service key w' =
  filestore.getStoragePath getStorageDir service key w.
Proof. intros E. unfold filestore.getStoragePath. rewrite E. reflexivity. Qed.

Lemma getStoragePath_error service key w p e :
  filestore.getStoragePath getStorageDir service key w = (p, Some e) ->
  p = EmptyString.
Proof.
  unfold filestore.getStoragePath.
  destruct (getStorageDir (os.env w)) as [dir [e'|]]; intros H;
    inversion H; reflexivity.
Qed.

Lemma filestore_set_ok service key value w w' :
  filestore.set getStorageDir service key value w = (None, w') ->
  exists path,
    filestore.getStoragePath getStorageDir service key w = (path, None) /\
    os.env w' = os.env w /\
    os.fs w' =
      <[path := os.File (bytes_of_string
                 (base64.EncodeToString base64.StdEncoding value))]> (os.fs w).
Proof.
  unfold filestore.set.
  destruct (filestore.getStoragePath getStorageDir service key w)
    as [path [e|]]; [discriminate|].
  unfold os.WriteFile.
  destruct (os.fs w !! path) as [[data|]|]; intros H; inversion H; subst;
    exists path; cbn; auto.
Qed.

Lemma filestore_get_stored service key value w path :
  filestore.getStoragePath getStorageDir service key w = (path, None) ->
  os.fs w !! path =
    Some (os.File (bytes_of_string
            (base64.EncodeToString base64.StdEncoding value))) ->
  filestore.get getStorageDir service key w = ((value, None), w).
Proof.
  intros Hp Hf. unfold filestore.get. rewrite Hp.
  unfold os.ReadFile. rewrite Hf.
  unfold string_of_bytes, bytes_of_string.
  rewrite String.string_of_list_byte_of_string.
  rewrite TrimSpace_encoded, StdEncoding_roundtrip. reflexivity.
Qed.

Lemma filestore_set_get service key value w w' :
  filestore.set getStorageDir service key value w = (None, w') ->
  filestore.get getStorageDir service key w' = ((value, None), w').
Proof.
  intros H. apply filestore_set_ok in H as (path & Hp & He & Hf).
  apply (filestore_get_stored service key value w' path).
  - rewrite (getStoragePath_env service key w w' He). exact Hp.
  - rewrite Hf. apply lookup_insert_eq.
Qed.

(** A stored secret can be stored again without deleting it first. *)
Lemma filestore_set_again service key v1 v2 w w1 :
  filestore.set getStorageDir service key v1 w = (None, w1) ->
  exists w2, filestore.set getStorageDir service key v2 w1 = (None, w2).
Proof.
  intros H. apply filestore_set_ok in H as (path & Hp & He & Hf).
  unfold filestore.set.
  rewrite (getStoragePath_env service key w w1 He), Hp.
  unfold os.WriteFile. rewrite Hf, lookup_insert_eq. eauto.
Qed.

End FileStore.

(** * macOS *)

Lemma is_space_newline : all_chars is_space newline = true.
Proof. reflexivity. Qed.

Lemma TrimSpace_encoded_trail (x : list byte) (ws : string) :
  all_chars is_space ws = true ->
  strings.TrimSpace (base64.EncodeToString base64.StdEncoding x +:+ ws)
  = base64.EncodeToString base64.StdEncoding x.
Proof.
  intros Hws.
  pose proof (TrimSpace_plain EmptyString _ ws eq_refl
                (StdEncoding_plain x) Hws) as H.
  rewrite app_Empty in H. exact H.
Qed.

Section Darwin.

Context {K : Type} (run : exec.Cmd -> K -> exec.Result * K).
Hypothesis contract : keychain_contract run.

Lemma darwin_set_get service key value k k' :
  darwin.set run service key value k = (None, k') ->
  fst (darwin.get run service key k') = (value, None).
Proof.
  unfold darwin.set.
  destruct (darwin.del run service key k) as [e0 k0].
  destruct (run _ k0) as [r k1] eqn:Hadd.
  destruct (exec.err r) eqn:Herr; [discriminate|].
  intros H. inversion H; subst k1. clear H.
  destruct (contract _ _ _ _ _ _ Hadd Herr) as (r' & k2 & Hfind & Hok & Hout).
  unfold darwin.get. rewrite Hfind, Hok, Hout.
  rewrite TrimSpace_encoded_trail by apply is_space_newline.
  rewrite StdEncoding_roundtrip. reflexivity.
Qed.

End Darwin.

(** * Linux *)

Section Linux.

Context {K : Type} (run : exec.Cmd -> K -> exec.Result * K).

Lemma hasSecretTool_eq (w : linux.World (K:=K)) :
  linux.hasSecretTool w = (available w, probed w).
Proof. reflexivity. Qed.

Lemma setFileStorage_ok service key value (w w' : linux.World (K:=K)) :
  linux.setFileStorage service key value w = (None, w') ->
  filestore.set linux.getStorageDir service key value (linux.osw w)
    = (None, linux.osw w') /\
  linux.keyring w' = linux.keyring w /\ linux.lookups w' = linux.lookups w.
Proof.
  unfold linux.setFileStorage.
  destruct (filestore.set _ _ _ _ _) as [e o]. intros H. inversion H; subst.
  cbn. auto.
Qed.

Lemma linux_set_get service key value w w' :
  secret_service_contract run ->
  value <> [] ->
  linux.set run service key value w = (None, w') ->
  fst (linux.get run service key w') = (value, None).
Proof.
  intros contract Hv. unfold linux.set, linux.get.
  rewrite !hasSecretTool_eq.
  destruct (available w) eqn:Hav.
  - unfold linux.setSecretTool.
    destruct (run _ (linux.keyring (probed w))) as [r k1] eqn:Hstore.
    destruct (exec.err r) eqn:Herr; [discriminate|].
    intros H. inversion H; subst w'. clear H.
    destruct (contract _ _ _ _ _ _ _ Hstore Herr)
      as (r' & k2 & Hlook & Hok & Hout).
    replace (available _) with true by (symmetry; exact Hav).
    unfold linux.getSecretTool. cbn [linux.keyring probed linux.hasSecretTool
      snd linux.with_keyring].
    rewrite Hlook, Hok, Hout.
    unfold bytes_of_string, string_of_bytes.
    rewrite String.list_byte_of_string_of_list_byte.
    destruct (Z.of_nat (length value) =? 0) eqn:E.
    + apply length_zero_nil in E. contradiction.
    + reflexivity.
  - intros H. apply setFileStorage_ok in H as (Hset & _ & _).
    assert (Hav' : available w' = false).
    { unfold available in *.
      apply filestore_set_ok in Hset as (path & _ & He & _).
      cbn in He. rewrite He. exact Hav. }
    rewrite Hav'. unfold linux.getFileStorage.
    cbn [probed linux.hasSecretTool snd linux.osw].
    apply filestore_set_get in Hset. rewrite Hset. reflexivity.
Qed.

End Linux.

(** * Round trip and overwrite through the facade *)

Lemma file_backend_roundtrip gsd service key value w w' :
  service <> EmptyString -> key <> EmptyString -> value <> [] ->
  vault.Set_ (file_backend gsd) service key value w = (None, w') ->
  vault.Get (file_backend gsd) service key w' = ((value, None), w').
Proof.
  intros Hs Hk Hv. rewrite Set_valid, Get_valid by assumption.
  apply filestore_set_get.
Qed.

Lemma file_backend_overwrite gsd service key v1 v2 w w1 :
  service <> EmptyString -> key <> EmptyString -> v1 <> [] -> v2 <> [] ->
  vault.Set_ (file_backend gsd) service key v1 w = (None, w1) ->
  exists w2,
    vault.Set_ (file_backend gsd) service key v2 w1 = (None, w2) /\
    vault.Get (file_backend gsd) service key w2 = ((v2, None), w2).
Proof.
  intros Hs Hk Hv1 Hv2. rewrite !Set_valid by assumption. intros H1.
  destruct (filestore_set_again gsd service key v1 v2 w w1 H1) as [w2 H2].
  exists w2. split; [exact H2|].
  rewrite Get_valid by assumption. apply (filestore_set_get gsd _ _ _ w1).
  exact H2.
Qed.

Lemma darwin_backend_roundtrip {K : Type}
    (run : exec.Cmd -> K -> exec.Result * K) service key value k k' :
  keychain_contract run ->
  service <> EmptyString -> key <> EmptyString -> value <> [] ->
  vault.Set_ (darwin_backend run) service key value k = (None, k') ->
  fst (vault.Get (darwin_backend run) service key k') = (value, None).
Proof.
  intros C Hs Hk Hv. rewrite Set_valid, Get_valid by assumption.
  apply darwin_set_get. exact C.
Qed.

Lemma linux_backend_roundtrip {K : Type}
    (run : exec.Cmd -> K -> exec.Result * K) service key value w w' :
  secret_service_contract run ->
  service <> EmptyString -> key <> EmptyString -> value <> [] ->
  vault.Set_ (linux_backend run) service key value w = (None, w') ->
  fst (vault.Get (linux_backend run) service key w') = (value, None).
Proof.
  intros C Hs Hk Hv. rewrite Set_valid, Get_valid by assumption.
  apply linux_set_get; assumption.
Qed.



(** The reference tools meet the contracts. *)
Lemma security_meets_contract : keychain_contract security.
Proof.
  intros account service password k r k1 Hadd Herr.
  cbn in Hadd. inversion Hadd; subst. clear Hadd.
  eexists _, _. cbn. rewrite lookup_insert_eq. repeat split.
Qed.

Lemma secret_tool_meets_contract : secret_service_contract secret_tool.
Proof.
  intros label service key value k r k1 Hst Herr.
  cbn in Hst. inversion Hst; subst. clear Hst.
  eexists _, _. cbn. rewrite lookup_insert_eq. repeat split.
Qed.

Lemma secret_nonempty : secret <> [].
Proof. discriminate. Qed.



(** * Storage paths *)

Lemma EncodeToString_URL_inj (x y : list byte) :
  base64.EncodeToString base64.URLEncoding x =
  base64.EncodeToString base64.URLEncoding y -> x = y.
Proof.
  intros H. pose proof (URLEncoding_roundtrip x) as Hx.
  rewrite H, URLEncoding_roundtrip in Hx. congruence.
Qed.

Lemma bytes_of_string_inj (s t : string) :
  bytes_of_string s = bytes_of_string t -> s = t.
Proof.
  intros H. unfold bytes_of_string in H.
  rewrite <- (String.string_of_list_byte_of_string s),
          <- (String.string_of_list_byte_of_string t), H.
  reflexivity.
Qed.

Lemma URLEncoding_filename_chars (x : list byte) :
  all_chars filename_char (base64.EncodeToString base64.URLEncoding x) = true.
Proof.
  apply Encode_chars; [|reflexivity].
  apply (sextet_forall
           (fun v => filename_char (base64.encode_at base64.URLEncoding v))).
  vm_compute. reflexivity.
Qed.

Lemma append_inj_l (p s t : string) : p +:+ s = p +:+ t -> s = t.
Proof.
  induction p as [|c p IH]; [auto|].
  rewrite !app_String. intros H. inversion H. auto.
Qed.

Lemma append_assoc (a b c : string) : (a +:+ b) +:+ c = a +:+ b +:+ c.
Proof.
  induction a as [|x a IH]; [reflexivity|].
  rewrite !app_String, IH. reflexivity.
Qed.

Lemma filename_char_plain c :
  filename_char c = true ->
  Ascii.eqb c "/" = false /\ Ascii.eqb c "." = false.
Proof.
  intros H. split.
  - destruct (Ascii.eqb_spec c "/") as [->|_]; [discriminate H|reflexivity].
  - destruct (Ascii.eqb_spec c ".") as [->|_]; [discriminate H|reflexivity].
Qed.

Lemma components_name (f : string) :
  all_chars filename_char f = true -> filepath.components f = [f].
Proof.
  induction f as [|c f IH]; [reflexivity|].
  cbn [all_chars filepath.components]. intros H.
  apply andb_true_iff in H as [Hc Hf].
  destruct (filename_char_plain c Hc) as [-> _]. rewrite (IH Hf). reflexivity.
Qed.

Lemma components_nonempty (s : string) : filepath.components s <> [].
Proof.
  destruct s as [|c s]; cbn [filepath.components]; [discriminate|].
  destruct (Ascii.eqb c "/"); [discriminate|].
  destruct (filepath.components s); discriminate.
Qed.

Lemma components_app (s t : string) :
  filepath.components (s +:+ String "/" t)
  = filepath.components s ++ filepath.components t.
Proof.
  induction s as [|c s IH].
  - rewrite app_Empty. reflexivity.
  - rewrite app_String. cbn [filepath.components]. rewrite IH.
    destruct (Ascii.eqb c "/"); [reflexivity|].
    pose proof (components_nonempty s) as Hne.
    destruct (filepath.components s) as [|comp more]; [contradiction|].
    reflexivity.
Qed.

Lemma clean_step_name rooted out (f : string) :
  f <> EmptyString -> all_chars filename_char f = true ->
  filepath.clean_step rooted out f = out ++ [f].
Proof.
  intros Hne Hf. destruct f as [|c f]; [contradiction|].
  cbn [all_chars] in Hf. apply andb_true_iff in Hf as [Hc _].
  destruct (filename_char_plain c Hc) as [_ Hdot].
  unfold filepath.clean_step. cbn [String.eqb]. rewrite Hdot. reflexivity.
Qed.

Lemma join_sep_snoc (out : list string) (f : string) :
  filepath.join_sep (out ++ [f]) =
  match out with
  | [] => f
  | _ => filepath.join_sep out +:+ "/" +:+ f
  end.
Proof.
  induction out as [|a out IH]; [reflexivity|].
  destruct out as [|b out]; [reflexivity|].
  change (a +:+ "/" +:+ filepath.join_sep ((b :: out) ++ [f]) =
          (a +:+ "/" +:+ filepath.join_sep (b :: out)) +:+ "/" +:+ f).
  rewrite IH, !append_assoc. reflexivity.
Qed.

(** A file name joined to a directory lies directly below the cleaned
    directory. *)
Lemma Join_child (dir f : string) :
  f <> EmptyString -> all_chars filename_char f = true ->
  filepath.Join [dir; f] = child_prefix dir +:+ f.
Proof.
  intros Hne Hf. cbn [filepath.Join].
  destruct dir as [|c dir].
  - cbn [String.eqb]. rewrite (eqb_empty_false f Hne).
    unfold filepath.Clean, child_prefix. cbn [filepath.join_sep].
    destruct f as [|d f]; [contradiction|].
    pose proof Hf as Hd. cbn [all_chars] in Hd.
    apply andb_true_iff in Hd as [Hd _].
    destruct (filename_char_plain d Hd) as [-> _].
    rewrite (components_name _ Hf). cbn [fold_left].
    rewrite clean_step_name by assumption. reflexivity.
  - cbn [String.eqb filepath.join_sep].
    change (String c dir +:+ "/" +:+ f) with (String c (dir +:+ String "/" f)).
    unfold filepath.Clean, child_prefix.
    change (String c (dir +:+ String "/" f))
      with (String c dir +:+ String "/" f).
    rewrite components_app, (components_name _ Hf), fold_left_app.
    cbn [fold_left]. rewrite clean_step_name by assumption.
    rewrite join_sep_snoc.
    destruct (Ascii.eqb c "/");
      destruct (fold_left _ _ _) as [|a out]; cbn [app];
      rewrite ?app_Empty, ?append_assoc; reflexivity.
Qed.

Lemma Encode_nonempty enc (src : list byte) :
  src <> [] -> base64.EncodeToString enc src <> EmptyString.
Proof.
  destruct src as [|b0 [|b1 [|b2 rest]]]; [contradiction| | |];
    intros _; cbn [base64.EncodeToString]; discriminate.
Qed.

Lemma joined_bytes_nonempty (service key : string) :
  bytes_of_string (service +:+ "/" +:+ key) <> [].
Proof.
  destruct service; cbn; discriminate.
Qed.

Lemma Join_dir_inj (dir : string) (x y : list byte) :
  x <> [] -> y <> [] ->
  filepath.Join [dir; base64.EncodeToString base64.URLEncoding x] =
  filepath.Join [dir; base64.EncodeToString base64.URLEncoding y] ->
  base64.EncodeToString base64.URLEncoding x =
  base64.EncodeToString base64.URLEncoding y.
Proof.
  intros Hx Hy.
  rewrite !Join_child
    by (try apply Encode_nonempty; try apply URLEncoding_filename_chars;
        assumption).
  apply append_inj_l.
Qed.

Lemma Contains_slash_cons c s :
  strings.Contains (String c s) "/" =
  Ascii.eqb "/" c || strings.Contains s "/".
Proof.
  cbn [strings.Contains String.prefix].
  destruct (ascii_dec "/" c) as [<-|Hne].
  - rewrite Ascii.eqb_refl. destruct s; reflexivity.
  - apply Ascii.eqb_neq in Hne. rewrite Hne. reflexivity.
Qed.

(** Joining with the separator is injective on services without it. *)
Lemma joined_identity_inj (s1 : string) :
  forall s2 k1 k2,
    strings.Contains s1 "/" = false -> strings.Contains s2 "/" = false ->
    s1 +:+ "/" +:+ k1 = s2 +:+ "/" +:+ k2 -> s1 = s2 /\ k1 = k2.
Proof.
  induction s1 as [|c s1 IH]; intros [|d s2] k1 k2 H1 H2 E.
  - rewrite !app_Empty in E. split; [reflexivity|].
    change (String "/" k1 = String "/" k2) in E. congruence.
  - rewrite app_Empty, app_String in E.
    change (String "/" k1 = String d (s2 +:+ "/" +:+ k2)) in E.
    inversion E; subst d.
    rewrite Contains_slash_cons, Ascii.eqb_refl in H2. discriminate.
  - rewrite app_Empty, app_String in E.
    change (String c (s1 +:+ "/" +:+ k1) = String "/" k2) in E.
    inversion E; subst c.
    rewrite Contains_slash_cons, Ascii.eqb_refl in H1. discriminate.
  - rewrite !app_String in E. inversion E; subst d.
    rewrite Contains_slash_cons in H1, H2.
    apply orb_false_iff in H1 as [_ H1]. apply orb_false_iff in H2 as [_ H2].
    destruct (IH s2 k1 k2 H1 H2) as [-> ->]; [assumption|]. auto.
Qed.

Section StoragePath.

Variable getStorageDir : os.Env -> string * option error.

Lemma getStoragePath_ok service key w path :
  filestore.getStoragePath getStorageDir service key w = (path, None) ->
  exists dir,
    getStorageDir (os.env w) = (dir, None) /\
    path = filepath.Join
             [dir; base64.EncodeToString base64.URLEncoding
                     (bytes_of_string (service +:+ "/" +:+ key))].
Proof.
  unfold filestore.getStoragePath.
  destruct (getStorageDir (os.env w)) as [dir [e|]]; intros H;
    inversion H; subst. eauto.
Qed.

Lemma storage_path_eq_iff s1 k1 s2 k2 w p1 p2 :
  filestore.getStoragePath getStorageDir s1 k1 w = (p1, None) ->
  filestore.getStoragePath getStorageDir s2 k2 w = (p2, None) ->
  (p1 = p2 <-> s1 +:+ "/" +:+ k1 = s2 +:+ "/" +:+ k2).
Proof.
  intros H1 H2.
  apply getStoragePath_ok in H1 as (d1 & Hd1 & ->).
  apply getStoragePath_ok in H2 as (d2 & Hd2 & ->).
  assert (d2 = d1) by congruence. subst d2.
  split.
  - intros H. apply Join_dir_inj in H; try apply joined_bytes_nonempty.
    apply EncodeToString_URL_inj in H. apply bytes_of_string_inj. exact H.
  - intros ->. reflexivity.
Qed.

End StoragePath.

(** C3, amended.  The storage path of an identity is the storage
    directory joined with a file name that is the URL-safe base64 encoding
    of [service + "/" + key]; the encoding is reversible and the file name
    consists of letters, digits, hyphen, underscore and the equals sign
    only, so it holds no separator and no dot, and the path is the cleaned
    directory followed by the file name.  Two identities get the
    same path exactly when their joined strings [service + "/" + key] are
    equal; in particular distinct identities whose services contain no
    "/" get distinct paths. *)
Theorem storage_path_derivation
    (getStorageDir : os.Env -> string * option error) (w : os.World)
    (s1 k1 s2 k2 p1 p2 : string) :
  filestore.getStoragePath getStorageDir s1 k1 w = (p1, None) ->
  filestore.getStoragePath getStorageDir s2 k2 w = (p2, None) ->
  (exists dir filename,
      p1 = filepath.Join [dir; filename] /\
      p1 = child_prefix dir +:+ filename /\
      filename = base64.EncodeToString base64.URLEncoding
                   (bytes_of_string (s1 +:+ "/" +:+ k1)) /\
      base64.DecodeString base64.URLEncoding filename
        = (bytes_of_string (s1 +:+ "/" +:+ k1), None) /\
      all_chars filename_char filename = true) /\
  (p1 = p2 <-> s1 +:+ "/" +:+ k1 = s2 +:+ "/" +:+ k2) /\
  (strings.Contains s1 "/" = false -> strings.Contains s2 "/" = false ->
   (s1, k1) <> (s2, k2) -> p1 <> p2).
Proof.
  intros H1 H2.
  pose proof (storage_path_eq_iff getStorageDir _ _ _ _ _ _ _ H1 H2) as Hiff.
  split; [|split].
  - destruct (getStoragePath_ok getStorageDir _ _ _ _ H1) as (dir & _ & ->).
    eexists dir, _. split; [reflexivity|].
    split; [apply Join_child;
            [apply Encode_nonempty, joined_bytes_nonempty
            |apply URLEncoding_filename_chars]|].
    split; [reflexivity|].
    split; [apply URLEncoding_roundtrip | apply URLEncoding_filename_chars].
  - exact Hiff.
  - intros N1 N2 Hne Hp. apply Hiff in Hp.
    destruct (joined_identity_inj s1 s2 k1 k2 N1 N2 Hp) as [-> ->].
    apply Hne. reflexivity.
Qed.

Lemma storage_path_derivation_witness :
  "/data/app/.vault-secrets/YXBwMS9r"%string
  <> "/data/app/.vault-secrets/YXBwMi9r"%string.
Proof.
  refine (proj2 (proj2 (storage_path_derivation android.getStorageDir
            (fresh_world false) "app1" "k" "app2" "k" _ _ _ _)) _ _ _).
  - vm_compute. reflexivity.
  - vm_compute. reflexivity.
  - vm_compute. reflexivity.
  - vm_compute. reflexivity.
  - discriminate.
Defined.

(** C3, as stated, fails: two distinct identities on one file. *)
Lemma distinct_identities_collide :
  ("a/b"%string, "c"%string) <> ("a"%string, "b/c"%string) /\
  filestore.getStoragePath android.getStorageDir "a/b" "c" (fresh_world false)
    = ("/data/app/.vault-secrets/YS9iL2M="%string, None) /\
  filestore.getStoragePath android.getStorageDir "a" "b/c" (fresh_world false)
    = ("/data/app/.vault-secrets/YS9iL2M="%string, None) /\
  fst (vault.Get android_backend "a" "b/c"
         (snd (vault.Set_ android_backend "a/b" "c" secret
                 (fresh_world false))))
    = (secret, None).
Proof.
  split; [discriminate|]. vm_compute. repeat split.
Qed.

(** * The backend selector of linux *)

Lemma filestore_set_env gsd service key value w :
  os.env (snd (filestore.set gsd service key value w)) = os.env w.
Proof.
  unfold filestore.set.
  destruct (filestore.getStoragePath gsd service key w) as [path [e|]];
    [reflexivity|].
  unfold os.WriteFile. destruct (os.fs w !! path) as [[data|]|]; reflexivity.
Qed.

Lemma filestore_get_world gsd service key w :
  snd (filestore.get gsd service key w) = w.
Proof.
  unfold filestore.get.
  destruct (filestore.getStoragePath gsd service key w) as [path [e|]];
    [reflexivity|].
  destruct (os.ReadFile path w) as [data [e|]].
  - destruct (os.IsNotExist e); reflexivity.
  - destruct (base64.DecodeString _ _) as [d [e|]]; reflexivity.
Qed.

Lemma filestore_del_env gsd service key w :
  os.env (snd (filestore.del gsd service key w)) = os.env w.
Proof.
  unfold filestore.del.
  destruct (filestore.getStoragePath gsd service key w) as [path [e|]];
    [reflexivity|].
  unfold os.Remove. destruct (os.fs w !! path) as [[data|]|]; reflexivity.
Qed.

Section Selector.

Context {K : Type} (run : exec.Cmd -> K -> exec.Result * K).

(** What a call leaves of the world: one more lookup, the same
    environment. *)

Lemma set_one_probe service key value w :
  linux.lookups (snd (linux.set run service key value w)) = S (linux.lookups w) /\
  os.env (linux.osw (snd (linux.set run service key value w))) = os.env (linux.osw w).
Proof.
  unfold linux.set. rewrite hasSecretTool_eq.
  destruct (available w).
  - unfold linux.setSecretTool.
    destruct (run _ _) as [r k]. destruct (exec.err r); split; reflexivity.
  - unfold linux.setFileStorage.
    pose proof (filestore_set_env linux.getStorageDir service key value
                  (linux.osw (probed w))) as E.
    destruct (filestore.set _ _ _ _ _) as [e o]. split; [reflexivity|].
    exact E.
Qed.

Lemma get_one_probe service key w :
  linux.lookups (snd (linux.get run service key w)) = S (linux.lookups w) /\
  os.env (linux.osw (snd (linux.get run service key w))) = os.env (linux.osw w).
Proof.
  unfold linux.get. rewrite hasSecretTool_eq.
  destruct (available w).
  - unfold linux.getSecretTool.
    destruct (run _ _) as [r k].
    destruct (exec.err r); [destruct (_ =? 0)|destruct (_ =? 0)];
      split; reflexivity.
  - unfold linux.getFileStorage.
    pose proof (filestore_get_world linux.getStorageDir service key
                  (linux.osw (probed w))) as E.
    destruct (filestore.get _ _ _ _) as [e o]. split; [reflexivity|].
    cbn in E. cbn. rewrite E. reflexivity.
Qed.

Lemma del_one_probe service key w :
  linux.lookups (snd (linux.del run service key w)) = S (linux.lookups w) /\
  os.env (linux.osw (snd (linux.del run service key w))) = os.env (linux.osw w).
Proof.
  unfold linux.del. rewrite hasSecretTool_eq.
  destruct (available w).
  - unfold linux.deleteSecretTool.
    destruct (run _ _) as [r k]. destruct (exec.err r); split; reflexivity.
  - unfold linux.deleteFileStorage.
    pose proof (filestore_del_env linux.getStorageDir service key
                  (linux.osw (probed w))) as E.
    destruct (filestore.del _ _ _ _) as [e o]. split; [reflexivity|].
    exact E.
Qed.

Lemma available_env (w w' : linux.World (K:=K)) :
  os.env (linux.osw w') = os.env (linux.osw w) -> available w' = available w.
Proof. intros E. unfold available. rewrite E. reflexivity. Qed.

Lemma serve_available (r : request) (w : linux.World (K:=K)) :
  available (serve (linux_backend run) w r) = available w.
Proof.
  destruct r as [service key value|service key|service key]; cbn [serve].
  - unfold vault.Set_.
    destruct (_ || _); [reflexivity|]. destruct (_ =? 0); [reflexivity|].
    apply available_env. apply set_one_probe.
  - unfold vault.Get. destruct (_ || _); [reflexivity|].
    apply available_env. apply get_one_probe.
  - unfold vault.Del. destruct (_ || _); [reflexivity|].
    apply available_env. apply del_one_probe.
Qed.

Lemma serve_all_available (rs : list request) :
  forall w : linux.World (K:=K), available (serve_all (linux_backend run) rs w) = available w.
Proof.
  induction rs as [|r rs IH]; intros w; [reflexivity|].
  change (available (serve_all (linux_backend run) rs
                      (serve (linux_backend run) w r)) = available w).
  rewrite IH. apply serve_available.
Qed.

End Selector.

(** C4, amended.  The linux adapter probes for [secret-tool] on every
    call: each of [set], [get] and [del] makes exactly one lookup and is
    routed by the outcome of that lookup, to secret-tool when it is found
    and to the file storage otherwise.  The adapter itself never changes
    the outcome of the probe, so through any run of requests the selection
    stays the same as long as nothing outside changes the availability of
    the tool. *)
Theorem selector_probes_each_call {K : Type}
    (run : exec.Cmd -> K -> exec.Result * K)
    (service key : string) (value : list byte) (w : linux.World (K:=K)) :
  (linux.lookups (snd (linux.set run service key value w))
     = S (linux.lookups w) /\
   linux.lookups (snd (linux.get run service key w)) = S (linux.lookups w) /\
   linux.lookups (snd (linux.del run service key w)) = S (linux.lookups w)) /\
  (linux.set run service key value w =
     (if available w then linux.setSecretTool run service key value (probed w)
      else linux.setFileStorage service key value (probed w)) /\
   linux.get run service key w =
     (if available w then linux.getSecretTool run service key (probed w)
      else linux.getFileStorage service key (probed w)) /\
   linux.del run service key w =
     (if available w then linux.deleteSecretTool run service key (probed w)
      else linux.deleteFileStorage service key (probed w))) /\
  (forall rs : list request,
      available (serve_all (linux_backend run) rs w) = available w).
Proof.
  split; [|split].
  - repeat split.
    + apply set_one_probe.
    + apply get_one_probe.
    + apply del_one_probe.
  - repeat split.
  - intros rs. apply serve_all_available.
Qed.

(** C4, as stated, fails: two calls, two probes, two backends. *)
Lemma selector_mixes_backends :
  let w1 := snd (linux.set secret_tool "myapp" "api-key" secret
                   (fresh_linux false)) in
  let w2 := snd (linux.get secret_tool "myapp" "api-key" (set_tool true w1)) in
  fst (linux.set secret_tool "myapp" "api-key" secret (fresh_linux false))
    = None /\
  fst (linux.get secret_tool "myapp" "api-key" (set_tool true w1))
    = ([], Some ErrNotFound) /\
  linux.lookups w2 = 2%nat /\
  fst (linux.getFileStorage "myapp" "api-key" w2) = (secret, None).
Proof. vm_compute. repeat split. Qed.

(** C6, the code at the failing input.  With secret-tool available,
    [Del] of an identity that was never set succeeds instead of returning
    [ErrNotFound]; and whatever secret-tool does, [deleteSecretTool] never
    returns [ErrNotFound]. *)
Theorem deleteSecretTool_reports_no_absence :
  fst (vault.Del (linux_backend secret_tool)
         "vault-test-service" "nonexistent-key-12345" (fresh_linux true))
    = None /\
  forall (K : Type) (run : exec.Cmd -> K -> exec.Result * K)
         (service key : string) (w : linux.World (K:=K)),
    fst (linux.deleteSecretTool run service key w) <> Some ErrNotFound.
Proof.
  split; [vm_compute; reflexivity|].
  intros K run service key w. unfold linux.deleteSecretTool.
  destruct (run _ _) as [r k]. destruct (exec.err r); cbn; discriminate.
Qed.

(** * Errors of decoding and of the adapters *)

Lemma convert_error enc d0 d1 d2 d3 dlen si err dst out e :
  base64.convert enc d0 d1 d2 d3 dlen si err dst = (out, Some e) ->
  (exists n, e = CorruptInputError n) \/ err = Some e.
Proof.
  unfold base64.convert.
  destruct dlen as [|[|[|[|[|n]]]]];
    repeat match goal with
           | |- context [if ?c then _ else _] => destruct c
           end;
    intros H; inversion H; subst; eauto.
Qed.

Lemma after_padding_error enc d0 d1 d2 dlen src si dst out e :
  base64.after_padding enc d0 d1 d2 dlen src si dst = (out, Some e) ->
  exists n, e = CorruptInputError n.
Proof.
  unfold base64.after_padding.
  destruct (base64.skip_newlines src si) as [rest si'].
  intros H. apply convert_error in H as [H|H]; [exact H|].
  destruct rest; inversion H; eauto.
Qed.

Lemma Decode_error enc src :
  forall si j d0 d1 d2 dst out e,
    base64.Decode enc src si j d0 d1 d2 dst = (out, Some e) ->
    exists n, e = CorruptInputError n.
Proof.
  induction src as [|c rest IH]; intros si j d0 d1 d2 dst out e H.
  - cbn [base64.Decode] in H.
    destruct j as [|[|j]]; [discriminate|inversion H; eauto|].
    destruct (base64.padChar enc); [inversion H; eauto|].
    apply convert_error in H as [H|H]; [exact H|discriminate].
  - cbn [base64.Decode] in H.
    destruct (negb (base64.decodeMap enc c =? 255)).
    + destruct j as [|[|[|j]]]; eapply IH; exact H.
    + destruct (base64.is_newline c); [eapply IH; exact H|].
      destruct (negb (base64.is_pad enc c)); [inversion H; eauto|].
      destruct j as [|[|[|j]]]; try (inversion H; eauto; fail).
      * destruct (base64.skip_newlines rest (si + 1)) as [[|c2 rest2] si1];
          [inversion H; eauto|].
        destruct (negb (base64.is_pad enc c2)); [inversion H; eauto|].
        eapply after_padding_error; exact H.
      * eapply after_padding_error; exact H.
Qed.

Lemma DecodeString_error enc s out e :
  base64.DecodeString enc s = (out, Some e) ->
  exists n, e = CorruptInputError n.
Proof. apply Decode_error. Qed.

Lemma DecodeString_error_failure enc s out e :
  base64.DecodeString enc s = (out, Some e) -> BackendFailure e.
Proof.
  intros H. apply DecodeString_error in H as [n ->].
  repeat split; discriminate.
Qed.

Lemma Errorf_w_failure fmt e : BackendFailure (Errorf_w fmt e).
Proof. repeat split; discriminate. Qed.

Lemma Errorf_s_failure fmt a : BackendFailure (Errorf_s fmt a).
Proof. repeat split; discriminate. Qed.

Lemma ErrorsNew_failure msg : BackendFailure (ErrorsNew msg).
Proof. repeat split; discriminate. Qed.

Lemma DecodeString_empty enc :
  base64.DecodeString enc EmptyString = ([], None).
Proof. reflexivity. Qed.

Ltac failure :=
  first [ apply Errorf_w_failure | apply Errorf_s_failure
        | apply ErrorsNew_failure
        | eapply DecodeString_error_failure; eassumption ].

Ltac get_shape :=
  repeat match goal with
         | |- context [match ?x with _ => _ end] => destruct x eqn:?
         end;
  unfold get_result_ok; cbn; try exact I; (split; [reflexivity|]);
  first [left; reflexivity | right; failure].

Lemma filestore_get_shape gsd service key w :
  get_result_ok (fst (filestore.get gsd service key w)).
Proof. unfold filestore.get. get_shape. Qed.

Lemma darwin_get_shape {K : Type} (run : exec.Cmd -> K -> exec.Result * K)
    service key k :
  get_result_ok (fst (darwin.get run service key k)).
Proof. unfold darwin.get. get_shape. Qed.

Lemma windows_get_shape {K : Type} (run : exec.Cmd -> K -> exec.Result * K)
    service key k :
  get_result_ok (fst (windows.get run service key k)).
Proof. unfold windows.get. get_shape. Qed.

Lemma js_get_shape {D : Type} (idb : js.IndexedDB D) service key d :
  get_result_ok (fst (js.get idb service key d)).
Proof. unfold js.get, js.withStore. get_shape. Qed.

Lemma getSecretTool_shape {K : Type} (run : exec.Cmd -> K -> exec.Result * K)
    service key w :
  get_result_ok (fst (linux.getSecretTool run service key w)).
Proof. unfold linux.getSecretTool. get_shape. Qed.

(** * When a retrieve operation reports absence *)

Lemma filestore_get_not_found gsd service key w :
  snd (fst (filestore.get gsd service key w)) = Some ErrNotFound <->
  exists path,
    filestore.getStoragePath gsd service key w = (path, None) /\
    os.fs w !! path = None.
Proof.
  unfold filestore.get, os.ReadFile.
  destruct (filestore.getStoragePath gsd service key w) as [path [e|]].
  - split; [discriminate|]. intros (p & H & _). discriminate.
  - destruct (os.fs w !! path) as [[data|]|] eqn:Hf.
    + split.
      * destruct (base64.DecodeString _ _) as [d [e|]]; discriminate.
      * intros (p & H & Hn). inversion H; subst. congruence.
    + split; [discriminate|].
      intros (p & H & Hn). inversion H; subst. congruence.
    + split; [eauto|reflexivity].
Qed.

Lemma darwin_get_not_found {K : Type} (run : exec.Cmd -> K -> exec.Result * K)
    service key k :
  let r := fst (run (exec.Command "security"
                       ["find-generic-password"; "-a"; key;
                        "-s"; service; "-w"]) k) in
  snd (fst (darwin.get run service key k)) = Some ErrNotFound <->
  exec.err r <> None /\
  strings.Contains (exec.stderr r) "could not be found" ||
  strings.Contains (exec.stderr r) "SecKeychainSearchCopyNext" = true.
Proof.
  cbv zeta. unfold darwin.get. destruct (run _ k) as [r k']. cbn [fst].
  destruct (exec.err r) as [e|].
  - destruct (_ || _).
    + split; [intros _; split; [discriminate|reflexivity] | reflexivity].
    + split; [discriminate | intros [_ H]; discriminate].
  - split; [|intros [H _]; contradiction].
    destruct (base64.DecodeString _ _) as [d [e|]]; discriminate.
Qed.

Lemma js_get_not_found {D : Type} (idb : js.IndexedDB D) service key d :
  snd (fst (js.get idb service key d)) = Some ErrNotFound <->
  js.idb_open idb d = true /\
  js.store_get idb (service +:+ "/" +:+ key) d = Some None.
Proof.
  unfold js.get, js.withStore.
  destruct (js.idb_open idb d).
  - destruct (js.store_get idb _ d) as [[encoded|]|].
    + split; [|intros [_ H]; discriminate].
      destruct (base64.DecodeString _ _) as [dec [e|]] eqn:Hd;
        [|discriminate].
      apply DecodeString_error in Hd as [n ->]. discriminate.
    + split; auto.
    + split; [discriminate|intros [_ H]; discriminate].
  - split; [discriminate|intros [H _]; discriminate].
Qed.

Lemma empty_iff_len (s : string) : (utf8.len s =? 0) = true <-> s = EmptyString.
Proof.
  unfold utf8.len. destruct s; cbn; split; intros H;
    try reflexivity; discriminate.
Qed.

Lemma empty_iff_bytes (s : string) :
  (Z.of_nat (length (bytes_of_string s)) =? 0) = true <-> s = EmptyString.
Proof.
  destruct s; cbn; split; intros H; try reflexivity; discriminate.
Qed.

Lemma getSecretTool_not_found {K : Type}
    (run : exec.Cmd -> K -> exec.Result * K) service key w :
  let r := fst (run (exec.Command "secret-tool"
                       ["lookup"; "service"; service; "key"; key])
                    (linux.keyring w)) in
  snd (fst (linux.getSecretTool run service key w)) = Some ErrNotFound <->
  exec.stdout r = EmptyString.
Proof.
  cbv zeta. unfold linux.getSecretTool. destruct (run _ _) as [r k'].
  cbn [fst].
  destruct (exec.err r) as [e|].
  - destruct (utf8.len (exec.stdout r) =? 0) eqn:E.
    + apply empty_iff_len in E. split; auto.
    + split; [discriminate|]. intros H. apply empty_iff_len in H. congruence.
  - destruct (Z.of_nat (length (bytes_of_string (exec.stdout r))) =? 0) eqn:E.
    + apply empty_iff_bytes in E. split; auto.
    + split; [discriminate|]. intros H. apply empty_iff_bytes in H. congruence.
Qed.

Lemma windows_get_not_found {K : Type}
    (run : exec.Cmd -> K -> exec.Result * K) service key k :
  let r := fst (run (exec.Command "powershell"
                       ["-NoProfile"; "-NonInteractive"; "-Command";
                        windows.getScript (service +:+ "/" +:+ key)]) k) in
  snd (fst (windows.get run service key k)) = Some ErrNotFound <->
  exec.err r <> None \/ strings.TrimSpace (exec.stdout r) = EmptyString.
Proof.
  cbv zeta. unfold windows.get. destruct (run _ k) as [r k']. cbn [fst].
  destruct (exec.err r) as [e|].
  - split; [intros _; left; discriminate|reflexivity].
  - destruct (String.eqb_spec (strings.TrimSpace (exec.stdout r)) EmptyString)
      as [E|E].
    + split; auto.
    + split.
      * destruct (base64.DecodeString _ _) as [d [e|]]; discriminate.
      * intros [H|H]; contradiction.
Qed.




(** * Malformed stored data *)



(** * Validation precedence *)

Ltac del_shape :=
  repeat match goal with
         | |- context [match ?x with _ => _ end] => destruct x eqn:?
         end;
  unfold del_result_ok; cbn; try exact I;
  first [left; reflexivity | right; failure].

Lemma filestore_del_shape gsd service key w :
  del_result_ok (fst (filestore.del gsd service key w)).
Proof. unfold filestore.del. del_shape. Qed.

Lemma darwin_del_shape {K : Type} (run : exec.Cmd -> K -> exec.Result * K)
    service key k :
  del_result_ok (fst (darwin.del run service key k)).
Proof. unfold darwin.del. del_shape. Qed.

Lemma js_del_shape {D : Type} (idb : js.IndexedDB D) service key d :
  del_result_ok (fst (js.del idb service key d)).
Proof.
  unfold js.del, js.withStore. destruct (js.idb_open idb d).
  - destruct (js.store_get idb _ d) as [[encoded|]|].
    + destruct (js.store_delete idb _ d); cbn;
        [exact I | right; apply ErrorsNew_failure].
    + cbn. left. reflexivity.
    + cbn. right. apply ErrorsNew_failure.
  - cbn. right. apply ErrorsNew_failure.
Qed.

Lemma linux_del_shape {K : Type} (run : exec.Cmd -> K -> exec.Result * K)
    service key w :
  del_result_ok (fst (linux.del run service key w)).
Proof.
  unfold linux.del. rewrite hasSecretTool_eq. destruct (available w).
  - unfold linux.deleteSecretTool. del_shape.
  - unfold linux.deleteFileStorage.
    pose proof (filestore_del_shape linux.getStorageDir service key
                  (linux.osw (probed w))) as H.
    destruct (filestore.del _ _ _ _) as [e o]. exact H.
Qed.

Lemma linux_get_shape {K : Type} (run : exec.Cmd -> K -> exec.Result * K)
    service key w :
  get_result_ok (fst (linux.get run service key w)).
Proof.
  unfold linux.get. rewrite hasSecretTool_eq. destruct (available w).
  - apply getSecretTool_shape.
  - unfold linux.getFileStorage.
    pose proof (filestore_get_shape linux.getStorageDir service key
                  (linux.osw (probed w))) as H.
    destruct (filestore.get _ _ _ _) as [e o]. exact H.
Qed.

Lemma get_ok_valid (r : list byte * option error) :
  get_result_ok r -> snd r <> Some ErrInvalidValue.
Proof.
  unfold get_result_ok. destruct (snd r) as [e|]; [|discriminate].
  intros [_ [->|(_ & _ & H)]]; congruence.
Qed.

Lemma del_ok_valid (r : option error) :
  del_result_ok r -> r <> Some ErrInvalidValue.
Proof.
  unfold del_result_ok. destruct r as [e|]; [|discriminate].
  intros [->|(_ & _ & H)]; congruence.
Qed.

Section NoInvalidValue.

Context {W : Type} (b : vault.Backend W).
Hypothesis get_ok : forall service key w,
    get_result_ok (fst (vault.get b service key w)).
Hypothesis del_ok : forall service key w,
    del_result_ok (fst (vault.del b service key w)).

Lemma facade_no_invalid_value service key w :
  snd (fst (vault.Get b service key w)) <> Some ErrInvalidValue /\
  fst (vault.Del b service key w) <> Some ErrInvalidValue.
Proof.
  unfold vault.Get, vault.Del.
  destruct (_ || _); [split; discriminate|].
  split; [apply get_ok_valid, get_ok | apply del_ok_valid, del_ok].
Qed.

End NoInvalidValue.



(** * Further properties *)

(** ** The file adapters: delete, failure, other identities *)

Section FileStoreMore.

Variable getStorageDir : os.Env -> string * option error.

Lemma filestore_set_failed service key value w e w' :
  filestore.set getStorageDir service key value w = (Some e, w') -> w' = w.
Proof.
  unfold filestore.set.
  destruct (filestore.getStoragePath getStorageDir service key w)
    as [path [e0|]]; [congruence|].
  unfold os.WriteFile.
  destruct (os.fs w !! path) as [[data|]|]; congruence.
Qed.

Lemma filestore_del_ok service key w w' :
  filestore.del getStorageDir service key w = (None, w') ->
  exists path data,
    filestore.getStoragePath getStorageDir service key w = (path, None) /\
    os.fs w !! path = Some (os.File data) /\
    os.env w' = os.env w /\
    os.fs w' = delete path (os.fs w).
Proof.
  unfold filestore.del.
  destruct (filestore.getStoragePath getStorageDir service key w)
    as [path [e0|]]; [discriminate|].
  unfold os.Remove.
  destruct (os.fs w !! path) as [[data|]|] eqn:Hf; cbn; try discriminate.
  intros H. inversion H; subst. exists path, data. auto.
Qed.

Lemma filestore_del_failed service key w e w' :
  filestore.del getStorageDir service key w = (Some e, w') -> w' = w.
Proof.
  unfold filestore.del.
  destruct (filestore.getStoragePath getStorageDir service key w)
    as [path [e0|]]; [congruence|].
  unfold os.Remove.
  destruct (os.fs w !! path) as [[data|]|]; cbn; congruence.
Qed.

Lemma filestore_del_present service key w path data :
  filestore.getStoragePath getStorageDir service key w = (path, None) ->
  os.fs w !! path = Some (os.File data) ->
  filestore.del getStorageDir service key w =
    (None, {| os.env := os.env w; os.fs := delete path (os.fs w) |}).
Proof.
  intros Hp Hf. unfold filestore.del, os.Remove. rewrite Hp, Hf. reflexivity.
Qed.

Lemma filestore_del_absent service key w path :
  filestore.getStoragePath getStorageDir service key w = (path, None) ->
  os.fs w !! path = None ->
  filestore.del getStorageDir service key w = (Some ErrNotFound, w).
Proof.
  intros Hp Hf. unfold filestore.del, os.Remove. rewrite Hp, Hf. reflexivity.
Qed.

Lemma filestore_get_absent service key w path :
  filestore.getStoragePath getStorageDir service key w = (path, None) ->
  os.fs w !! path = None ->
  filestore.get getStorageDir service key w = (([], Some ErrNotFound), w).
Proof.
  intros Hp Hf. unfold filestore.get, os.ReadFile. rewrite Hp, Hf. reflexivity.
Qed.

(** The result of [get] is read off the environment and the one entry
    at the storage path. *)
Lemma filestore_get_agree service key (w w' : os.World) :
  os.env w' = os.env w ->
  (forall path,
      filestore.getStoragePath getStorageDir service key w = (path, None) ->
      os.fs w' !! path = os.fs w !! path) ->
  fst (filestore.get getStorageDir service key w')
  = fst (filestore.get getStorageDir service key w).
Proof.
  intros He Hf. unfold filestore.get.
  rewrite (getStoragePath_env getStorageDir service key w w' He).
  destruct (filestore.getStoragePath getStorageDir service key w)
    as [path [e|]] eqn:Hp; [reflexivity|].
  unfold os.ReadFile. rewrite (Hf path eq_refl).
  destruct (os.fs w !! path) as [[data|]|]; cbn; try reflexivity.
  destruct (base64.DecodeString _ _) as [d [e|]]; reflexivity.
Qed.

End FileStoreMore.

(** X1.  On a file backend, after a successful [Set] of an identity its
    [Del] succeeds, the [Get] that follows returns [ErrNotFound] with no
    value, and a second [Del] returns [ErrNotFound]. *)
Theorem file_set_del_get gsd (service key : string) (value : list byte)
    (w w1 : os.World) :
  service <> EmptyString -> key <> EmptyString -> value <> [] ->
  vault.Set_ (file_backend gsd) service key value w = (None, w1) ->
  exists w2,
    vault.Del (file_backend gsd) service key w1 = (None, w2) /\
    vault.Get (file_backend gsd) service key w2
      = (([], Some ErrNotFound), w2) /\
    vault.Del (file_backend gsd) service key w2 = (Some ErrNotFound, w2).
Proof.
  intros Hs Hk Hv. rewrite Set_valid by assumption.
  cbn [vault.set file_backend].
  intros H. apply filestore_set_ok in H as (path & Hp & He & Hf).
  assert (Hp1 : filestore.getStoragePath gsd service key w1 = (path, None))
    by (rewrite (getStoragePath_env gsd service key w w1 He); exact Hp).
  exists {| os.env := os.env w1; os.fs := delete path (os.fs w1) |}.
  rewrite !(Del_valid (file_backend gsd)), !(Get_valid (file_backend gsd))
    by assumption.
  cbn [vault.get vault.del file_backend].
  split; [|split].
  - eapply (filestore_del_present gsd service key w1 path).
    + exact Hp1.
    + rewrite Hf. apply lookup_insert_eq.
  - apply (filestore_get_absent gsd service key _ path).
    + rewrite <- Hp1. apply getStoragePath_env. reflexivity.
    + cbn. apply lookup_delete_eq.
  - apply (filestore_del_absent gsd service key _ path).
    + rewrite <- Hp1. apply getStoragePath_env. reflexivity.
    + cbn. apply lookup_delete_eq.
Qed.

Lemma file_set_del_get_witness :
  exists w2,
    vault.Del (file_backend android.getStorageDir) "myapp" "api-key"
      (snd (vault.Set_ (file_backend android.getStorageDir) "myapp" "api-key"
              secret (fresh_world false))) = (None, w2) /\
    vault.Get (file_backend android.getStorageDir) "myapp" "api-key" w2
      = (([], Some ErrNotFound), w2) /\
    vault.Del (file_backend android.getStorageDir) "myapp" "api-key" w2
      = (Some ErrNotFound, w2).
Proof.
  apply (file_set_del_get android.getStorageDir "myapp" "api-key" secret
           (fresh_world false)).
  - discriminate.
  - discriminate.
  - discriminate.
  - vm_compute. reflexivity.
Defined.



(** X3.  On a file adapter, storing or deleting one identity leaves what
    [get] returns for every identity with a different joined string
    [service + "/" + key] as it was. *)
Theorem file_identities_independent gsd (s1 k1 s2 k2 : string)
    (value : list byte) (w : os.World) :
  s1 +:+ "/" +:+ k1 <> s2 +:+ "/" +:+ k2 ->
  fst (filestore.get gsd s2 k2 (snd (filestore.set gsd s1 k1 value w)))
    = fst (filestore.get gsd s2 k2 w) /\
  fst (filestore.get gsd s2 k2 (snd (filestore.del gsd s1 k1 w)))
    = fst (filestore.get gsd s2 k2 w).
Proof.
  intros Hne. split.
  - destruct (filestore.set gsd s1 k1 value w) as [[e|] w'] eqn:Hset.
    + apply filestore_set_failed in Hset. subst w'. reflexivity.
    + apply filestore_set_ok in Hset as (p1 & Hp1 & He & Hf). cbn [snd].
      apply filestore_get_agree; [exact He|].
      intros p2 Hp2. rewrite Hf. apply lookup_insert_ne.
      intros ->. apply Hne.
      apply (storage_path_eq_iff gsd s1 k1 s2 k2 w p2 p2 Hp1 Hp2).
      reflexivity.
  - destruct (filestore.del gsd s1 k1 w) as [[e|] w'] eqn:Hdel.
    + apply filestore_del_failed in Hdel. subst w'. reflexivity.
    + apply filestore_del_ok in Hdel as (p1 & d & Hp1 & _ & He & Hf).
      cbn [snd]. apply filestore_get_agree; [exact He|].
      intros p2 Hp2. rewrite Hf. apply lookup_delete_ne.
      intros ->. apply Hne.
      apply (storage_path_eq_iff gsd s1 k1 s2 k2 w p2 p2 Hp1 Hp2).
      reflexivity.
Qed.

Lemma file_identities_independent_witness :
  fst (filestore.get android.getStorageDir "app2" "k"
         (snd (filestore.set android.getStorageDir "app1" "k" secret
                 (fresh_world false))))
  = fst (filestore.get android.getStorageDir "app2" "k" (fresh_world false)).
Proof.
  apply (file_identities_independent android.getStorageDir
           "app1" "k" "app2" "k" secret (fresh_world false)).
  discriminate.
Defined.



(** X5.  On a file adapter [get] reads through ASCII white space around
    the stored text: a file that holds the encoding of a value between
    two runs of white space yields the value; and a file that is empty
    or holds white space only yields an empty value without error. *)
Theorem file_get_trims_stored_text gsd (service key : string) (w : os.World)
    (path lead trail : string) (value : list byte) :
  filestore.getStoragePath gsd service key w = (path, None) ->
  all_chars is_space lead = true ->
  all_chars is_space trail = true ->
  (os.fs w !! path =
     Some (os.File (bytes_of_string
             (lead +:+ base64.EncodeToString base64.StdEncoding value
                   +:+ trail))) ->
   filestore.get gsd service key w = ((value, None), w)) /\
  (os.fs w !! path = Some (os.File (bytes_of_string lead)) ->
   filestore.get gsd service key w = (([], None), w)).
Proof.
  intros Hp Hl Ht. split; intros Hf; unfold filestore.get, os.ReadFile;
    rewrite Hp, Hf; unfold string_of_bytes, bytes_of_string;
    rewrite String.string_of_list_byte_of_string.
  - rewrite (TrimSpace_plain lead _ trail Hl (StdEncoding_plain value) Ht).
    rewrite StdEncoding_roundtrip. reflexivity.
  - pose proof (TrimSpace_plain EmptyString EmptyString lead eq_refl eq_refl
                  Hl) as H.
    rewrite !app_Empty in H. rewrite H. reflexivity.
Qed.

Lemma file_get_trims_stored_text_witness :
  let w := {| os.env := plain_env false;
              os.fs := {[ "/data/app/.vault-secrets/bXlhcHAvYXBpLWtleQ=="%string
                          := os.File (bytes_of_string
                               (" " +:+ base64.EncodeToString
                                          base64.StdEncoding secret
                                    +:+ newline)) ]} |} in
  filestore.get android.getStorageDir "myapp" "api-key" w = ((secret, None), w).
Proof.
  intros w.
  apply (proj1 (file_get_trims_stored_text android.getStorageDir
                  "myapp" "api-key" w
                  "/data/app/.vault-secrets/bXlhcHAvYXBpLWtleQ=="
                  " " newline secret eq_refl eq_refl eq_refl)).
  vm_compute. reflexivity.
Defined.

(** ** The storage file name *)

Lemma length_bytes_of_string (s : string) :
  length (bytes_of_string s) = String.length s.
Proof.
  unfold bytes_of_string, String.list_byte_of_string.
  rewrite length_map. induction s as [|c s IH]; cbn; [reflexivity|].
  now rewrite IH.
Qed.

Lemma len_append (s t : string) : utf8.len (s +:+ t) = utf8.len s + utf8.len t.
Proof.
  unfold utf8.len. induction s as [|c s IH]; [reflexivity|].
  rewrite app_String. cbn [String.length]. lia.
Qed.

Lemma EncodeToString_len (enc : base64.Encoding) (p : ascii) (src : list byte) :
  base64.padChar enc = Some p ->
  utf8.len (base64.EncodeToString enc src)
  = 4 * ((Z.of_nat (length src) + 2) / 3).
Proof.
  intros Hp. unfold utf8.len.
  induction src as [|b0|b0 b1|b0 b1 b2 rest IH] using list_ind3;
    cbn [base64.EncodeToString String.length length];
    unfold base64.pad; rewrite ?Hp; cbn [String.length];
    try reflexivity.
  rewrite !Nat2Z.inj_succ, IH. Z.div_mod_to_equations. lia.
Qed.

(** X6.  The storage path of an identity is the cleaned storage directory
    followed by a file name whose length is four times the number of
    three-byte groups, whole or started, of [service + "/" + key]. *)
Theorem storage_filename_length gsd (service key : string) (w : os.World)
    (path : string) :
  filestore.getStoragePath gsd service key w = (path, None) ->
  exists dir filename,
    gsd (os.env w) = (dir, None) /\
    path = child_prefix dir +:+ filename /\
    utf8.len filename = 4 * ((utf8.len service + utf8.len key + 3) / 3) /\
    utf8.len path = utf8.len (child_prefix dir) + utf8.len filename.
Proof.
  intros H. apply getStoragePath_ok in H as (dir & Hd & ->).
  exists dir, (base64.EncodeToString base64.URLEncoding
                 (bytes_of_string (service +:+ "/" +:+ key))).
  split; [exact Hd|]. split; [|split].
  - apply Join_child;
      [apply Encode_nonempty, joined_bytes_nonempty
      |apply URLEncoding_filename_chars].
  - rewrite (EncodeToString_len _ base64.StdPadding) by reflexivity.
    rewrite length_bytes_of_string.
    change (Z.of_nat (String.length (service +:+ "/" +:+ key)))
      with (utf8.len (service +:+ "/" +:+ key)).
    rewrite !len_append. change (utf8.len "/") with 1.
    f_equal. f_equal. lia.
  - rewrite Join_child;
      [apply len_append
      |apply Encode_nonempty, joined_bytes_nonempty
      |apply URLEncoding_filename_chars].
Qed.

Lemma storage_filename_length_witness :
  exists dir filename,
    android.getStorageDir (plain_env false) = (dir, None) /\
    "/data/app/.vault-secrets/bXlhcHAvYXBpLWtleQ=="%string
      = child_prefix dir +:+ filename /\
    utf8.len filename = 4 * ((utf8.len "myapp" + utf8.len "api-key" + 3) / 3) /\
    utf8.len "/data/app/.vault-secrets/bXlhcHAvYXBpLWtleQ=="
      = utf8.len (child_prefix dir) + utf8.len filename.
Proof.
  apply (storage_filename_length android.getStorageDir "myapp" "api-key"
           (fresh_world false)).
  vm_compute. reflexivity.
Defined.

(** ** Text that is no base64 *)

Lemma skip_newlines_foreign (src : string) :
  forall si,
    all_chars (fun c => negb (foreign_char c)) src = false ->
    all_chars (fun c => negb (foreign_char c))
      (fst (base64.skip_newlines src si)) = false.
Proof.
  induction src as [|c rest IH]; intros si H; [discriminate H|].
  cbn [base64.skip_newlines].
  destruct (base64.is_newline c) eqn:Hnl; [|exact H].
  apply IH. cbn [all_chars] in H.
  unfold foreign_char in H at 1. rewrite Hnl in H.
  cbn in H. rewrite andb_false_r in H. exact H.
Qed.

Lemma convert_keeps_error (d0 d1 d2 d3 : Z) dlen si e dst :
  snd (base64.convert base64.StdEncoding d0 d1 d2 d3 dlen si (Some e) dst)
  <> None.
Proof.
  unfold base64.convert. destruct dlen as [|[|[|[|[|n]]]]]; cbn; discriminate.
Qed.

Lemma after_padding_foreign (d0 d1 d2 : Z) dlen src si dst :
  all_chars (fun c => negb (foreign_char c)) src = false ->
  snd (base64.after_padding base64.StdEncoding d0 d1 d2 dlen src si dst)
  <> None.
Proof.
  intros H. unfold base64.after_padding.
  pose proof (skip_newlines_foreign src si H) as Hs.
  destruct (base64.skip_newlines src si) as [[|c rest] si']; cbn [fst] in Hs;
    [discriminate Hs|].
  apply convert_keeps_error.
Qed.

Lemma Decode_foreign (src : string) :
  forall si j d0 d1 d2 dst,
    all_chars (fun c => negb (foreign_char c)) src = false ->
    snd (base64.Decode base64.StdEncoding src si j d0 d1 d2 dst) <> None.
Proof.
  induction src as [|c rest IH]; intros si j d0 d1 d2 dst H; [discriminate H|].
  cbn [all_chars] in H. cbn [base64.Decode].
  destruct (base64.decodeMap base64.StdEncoding c =? 255) eqn:Hm; cbn [negb].
  - destruct (base64.is_newline c) eqn:Hnl.
    + apply IH. unfold foreign_char in H at 1. rewrite Hm, Hnl in H. exact H.
    + destruct (base64.is_pad base64.StdEncoding c) eqn:Hpad; cbn [negb];
        [|cbn; discriminate].
      assert (Hr : all_chars (fun c => negb (foreign_char c)) rest = false).
      { unfold foreign_char in H at 1. rewrite Hm, Hnl, Hpad in H. exact H. }
      destruct j as [|[|[|j]]]; try (cbn; discriminate).
      * pose proof (skip_newlines_foreign rest (si + 1) Hr) as Hs.
        destruct (base64.skip_newlines rest (si + 1)) as [[|c2 rest2] si1];
          cbn [fst] in Hs; [discriminate Hs|].
        destruct (base64.is_pad base64.StdEncoding c2) eqn:Hp2; cbn [negb];
          [|cbn; discriminate].
        apply after_padding_foreign.
        cbn [all_chars] in Hs.
        assert (foreign_char c2 = false) as Hc2.
        { unfold foreign_char. rewrite Hp2. apply andb_false_r. }
        rewrite Hc2 in Hs. exact Hs.
      * apply after_padding_foreign. exact Hr.
  - assert (Hr : all_chars (fun c => negb (foreign_char c)) rest = false).
    { unfold foreign_char in H at 1. rewrite Hm in H. exact H. }
    destruct j as [|[|[|j]]]; apply IH; exact Hr.
Qed.

(** X7.  When the text of a storage file, once trimmed, holds a character
    that is neither of the base64 alphabet nor padding nor a line break,
    [get] of a file adapter returns the wrapped decode error and no
    value. *)
Theorem file_get_rejects_foreign_text gsd (service key : string)
    (w : os.World) (path : string) (data : list byte) :
  filestore.getStoragePath gsd service key w = (path, None) ->
  os.fs w !! path = Some (os.File data) ->
  all_chars (fun c => negb (foreign_char c))
    (strings.TrimSpace (string_of_bytes data)) = false ->
  exists e,
    filestore.get gsd service key w =
      (([], Some (Errorf_w "vault: failed to decode secret: %w" e)), w).
Proof.
  intros Hp Hf Hbad. unfold filestore.get, os.ReadFile. rewrite Hp, Hf.
  pose proof (Decode_foreign _ 0 0%nat 0 0 0 [] Hbad) as Hd.
  unfold base64.DecodeString.
  destruct (base64.Decode _ _ _ _ _ _ _ _) as [d [e|]]; [|contradiction].
  eauto.
Qed.

Lemma file_get_rejects_foreign_text_witness :
  let w := {| os.env := plain_env false;
              os.fs := {[ "/data/app/.vault-secrets/bXlhcHAvYXBpLWtleQ=="%string
                          := os.File (bytes_of_string "c3Vw ZXI=") ]} |} in
  exists e,
    filestore.get android.getStorageDir "myapp" "api-key" w =
      (([], Some (Errorf_w "vault: failed to decode secret: %w" e)), w).
Proof.
  intros w.
  apply (file_get_rejects_foreign_text android.getStorageDir
           "myapp" "api-key" w
           "/data/app/.vault-secrets/bXlhcHAvYXBpLWtleQ=="
           (bytes_of_string "c3Vw ZXI=")).
  - vm_compute. reflexivity.
  - vm_compute. reflexivity.
  - vm_compute. reflexivity.
Defined.

(** ** macOS: delete, and the delete inside set *)

(** X8.  What [del] on macOS returns: success exactly when the command
    succeeds; [ErrNotFound] exactly when it fails with a diagnostic output
    that contains "could not be found" or "SecKeychainSearchCopyNext";
    and otherwise the failure with that diagnostic output. *)
Theorem darwin_del_outcomes {K : Type}
    (run : exec.Cmd -> K -> exec.Result * K) (service key : string) (k : K) :
  let r := fst (run (exec.Command "security"
                       ["delete-generic-password"; "-a"; key; "-s"; service])
                    k) in
  let found := strings.Contains (exec.stderr r) "could not be found" ||
               strings.Contains (exec.stderr r) "SecKeychainSearchCopyNext" in
  (fst (darwin.del run service key k) = None <-> exec.err r = None) /\
  (fst (darwin.del run service key k) = Some ErrNotFound <->
   exec.err r <> None /\ found = true) /\
  (exec.err r <> None -> found = false ->
   fst (darwin.del run service key k) =
     Some (Errorf_s "vault: failed to delete key: %s" (exec.stderr r))).
Proof.
  cbv zeta. unfold darwin.del. destruct (run _ k) as [r k']. cbn [fst].
  destruct (exec.err r) as [e|]; [destruct (_ || _)|]; cbn [fst];
    intuition (try discriminate; try congruence).
Qed.

Lemma darwin_del_outcomes_witness :
  fst (darwin.del security "myapp" "api-key" ∅) = Some ErrNotFound.
Proof.
  apply (proj1 (proj2 (darwin_del_outcomes security "myapp" "api-key" ∅))).
  split; [vm_compute; discriminate | vm_compute; reflexivity].
Defined.

(** X9.  [set] on macOS runs the delete command and then the add command
    on the state the delete left; its result is that of the add command
    alone: whatever the delete reports, [set] succeeds when the add
    succeeds, and otherwise fails with the diagnostic output of the add;
    it never returns [ErrNotFound]. *)
Theorem darwin_set_ignores_delete {K : Type}
    (run : exec.Cmd -> K -> exec.Result * K) (service key : string)
    (value : list byte) (k : K) :
  let k0 := snd (run (exec.Command "security"
                        ["delete-generic-password"; "-a"; key; "-s"; service])
                     k) in
  let added := run (exec.Command "security"
                      ["add-generic-password"; "-a"; key; "-s"; service; "-w";
                       base64.EncodeToString base64.StdEncoding value; "-U"])
                   k0 in
  snd (darwin.set run service key value k) = snd added /\
  fst (darwin.set run service key value k) =
    match exec.err (fst added) with
    | None => None
    | Some _ => Some (Errorf_s "vault: failed to set key: %s"
                        (exec.stderr (fst added)))
    end /\
  fst (darwin.set run service key value k) <> Some ErrNotFound.
Proof.
  cbv zeta. unfold darwin.set.
  assert (Hd : snd (darwin.del run service key k) =
               snd (run (exec.Command "security"
                           ["delete-generic-password"; "-a"; key;
                            "-s"; service]) k)).
  { unfold darwin.del. destruct (run _ k) as [r k'].
    destruct (exec.err r); [destruct (_ || _)|]; reflexivity. }
  destruct (darwin.del run service key k) as [e0 k0]. cbn [snd] in Hd.
  rewrite <- Hd. destruct (run _ k0) as [r k1].
  cbn [fst snd]. destruct (exec.err r); repeat split; discriminate.
Qed.

(** ** Linux: the two routes *)

(** X10.  The two routes of the linux adapter exclude each other: when
    [secret-tool] is found, [set], [get] and [del] leave the file system
    as it is; when it is not found, they leave the state of the Secret
    Service as it is. *)
Theorem linux_routes_exclusive {K : Type}
    (run : exec.Cmd -> K -> exec.Result * K) (service key : string)
    (value : list byte) (w : linux.World (K:=K)) :
  (available w = true ->
   linux.osw (snd (linux.set run service key value w)) = linux.osw w /\
   linux.osw (snd (linux.get run service key w)) = linux.osw w /\
   linux.osw (snd (linux.del run service key w)) = linux.osw w) /\
  (available w = false ->
   linux.keyring (snd (linux.set run service key value w)) = linux.keyring w /\
   linux.keyring (snd (linux.get run service key w)) = linux.keyring w /\
   linux.keyring (snd (linux.del run service key w)) = linux.keyring w).
Proof.
  unfold linux.set, linux.get, linux.del. rewrite !hasSecretTool_eq.
  split; intros Hav; rewrite Hav.
  - unfold linux.setSecretTool, linux.getSecretTool, linux.deleteSecretTool.
    repeat split.
    + destruct (run _ _) as [r k]. destruct (exec.err r); reflexivity.
    + destruct (run _ _) as [r k].
      destruct (exec.err r); destruct (_ =? 0); reflexivity.
    + destruct (run _ _) as [r k]. destruct (exec.err r); reflexivity.
  - unfold linux.setFileStorage, linux.getFileStorage, linux.deleteFileStorage.
    repeat split.
    + destruct (filestore.set _ _ _ _ _) as [e o]. reflexivity.
    + destruct (filestore.get _ _ _ _) as [e o]. reflexivity.
    + destruct (filestore.del _ _ _ _) as [e o]. reflexivity.
Qed.

Lemma linux_routes_exclusive_witness :
  linux.keyring (snd (linux.set secret_tool "myapp" "api-key" secret
                        (fresh_linux false))) = ∅.
Proof.
  apply (proj1 (proj2 (linux_routes_exclusive secret_tool "myapp" "api-key"
                         secret (fresh_linux false)) eq_refl)).
Defined.



(** ** The browser adapter *)



(** ** Identities with one joined string *)

(** X13.  The file, Windows and browser adapters know an identity by the
    string [service + "/" + key] alone: on two identities with the same
    joined string every operation of these adapters does the same. *)
Theorem joined_identity_is_the_key (s1 k1 s2 k2 : string) :
  s1 +:+ "/" +:+ k1 = s2 +:+ "/" +:+ k2 ->
  (forall gsd value w,
      filestore.set gsd s1 k1 value w = filestore.set gsd s2 k2 value w /\
      filestore.get gsd s1 k1 w = filestore.get gsd s2 k2 w /\
      filestore.del gsd s1 k1 w = filestore.del gsd s2 k2 w) /\
  (forall (K : Type) (run : exec.Cmd -> K -> exec.Result * K)
          (Map_ToLower : string -> string) value k,
      windows.set run s1 k1 value k = windows.set run s2 k2 value k /\
      windows.get run s1 k1 k = windows.get run s2 k2 k /\
      windows.del run Map_ToLower s1 k1 k
        = windows.del run Map_ToLower s2 k2 k) /\
  (forall (D : Type) (idb : js.IndexedDB D) value d,
      js.set idb s1 k1 value d = js.set idb s2 k2 value d /\
      js.get idb s1 k1 d = js.get idb s2 k2 d /\
      js.del idb s1 k1 d = js.del idb s2 k2 d).
Proof.
  intros H. split; [|split].
  - intros gsd value w.
    unfold filestore.set, filestore.get, filestore.del,
      filestore.getStoragePath.
    rewrite H. repeat split.
  - intros K run M value k.
    unfold windows.set, windows.get, windows.del. rewrite H. repeat split.
  - intros D idb value d. unfold js.set, js.get, js.del. rewrite H.
    repeat split.
Qed.

Lemma joined_identity_is_the_key_witness :
  windows.get access_denied "a/b" "c" tt = windows.get access_denied "a" "b/c" tt.
Proof.
  apply (proj1 (proj2 (joined_identity_is_the_key "a/b" "c" "a" "b/c"
                         eq_refl)) unit access_denied (fun s => s) [] tt).
Defined.

(** ** Windows: delete *)

Lemma scan_ascii_ascii (s : string) :
  forall h,
    all_chars (fun c => ascii_val c <? 128) s = true ->
    strings.scan_ascii s h =
      (true,
       h || negb (all_chars
                    (fun c => negb ((65 <=? ascii_val c) &&
                                    (ascii_val c <=? 90))) s)).
Proof.
  induction s as [|c s IH]; intros h H; cbn [strings.scan_ascii all_chars].
  - rewrite orb_false_r. reflexivity.
  - cbn [all_chars] in H. apply andb_true_iff in H as [Hc Hs].
    unfold utf8.RuneSelf.
    destruct (Z.geb_spec (ascii_val c) 128) as [G|_];
      [apply Z.ltb_lt in Hc; lia|].
    rewrite (IH _ Hs). f_equal.
    destruct ((65 <=? ascii_val c) && (ascii_val c <=? 90)); cbn;
      rewrite ?orb_true_r, ?orb_false_r; reflexivity.
Qed.

Lemma lower_ascii_no_upper (s : string) :
  all_chars (fun c => negb ((65 <=? ascii_val c) && (ascii_val c <=? 90))) s
    = true ->
  strings.lower_ascii s = s.
Proof.
  induction s as [|c s IH]; [reflexivity|].
  cbn [all_chars strings.lower_ascii]. intros H.
  apply andb_true_iff in H as [Hc Hs]. apply negb_true_iff in Hc.
  rewrite Hc, (IH Hs). reflexivity.
Qed.

(** Within ASCII, [ToLower] lowers byte by byte. *)
Lemma ToLower_ascii (Map_ToLower : string -> string) (s : string) :
  all_chars (fun c => ascii_val c <? 128) s = true ->
  strings.ToLower Map_ToLower s = strings.lower_ascii s.
Proof.
  intros H. unfold strings.ToLower. rewrite (scan_ascii_ascii s false H).
  cbn [orb].
  destruct (all_chars
              (fun c => negb ((65 <=? ascii_val c) && (ascii_val c <=? 90)))
              s) eqn:E; cbn [negb]; [|reflexivity].
  symmetry. apply lower_ascii_no_upper, E.
Qed.

(** X14.  What [del] on Windows returns when the diagnostic output of
    [cmdkey] is ASCII: success exactly when the command succeeds;
    [ErrNotFound] exactly when it fails and the output, with its letters
    lowered, contains "not found" or "none"; and otherwise the failure
    with that output. *)
Theorem windows_del_outcomes {K : Type}
    (run : exec.Cmd -> K -> exec.Result * K)
    (Map_ToLower : string -> string) (service key : string) (k : K) :
  let r := fst (run (exec.Command "cmdkey"
                       ["/delete:" +:+ service +:+ "/" +:+ key]) k) in
  let low := strings.lower_ascii (exec.stderr r) in
  let absent := strings.Contains low "not found" ||
                strings.Contains low "none" in
  all_chars (fun c => ascii_val c <? 128) (exec.stderr r) = true ->
  (fst (windows.del run Map_ToLower service key k) = None <->
   exec.err r = None) /\
  (fst (windows.del run Map_ToLower service key k) = Some ErrNotFound <->
   exec.err r <> None /\ absent = true) /\
  (exec.err r <> None -> absent = false ->
   fst (windows.del run Map_ToLower service key k) =
     Some (Errorf_s "vault: failed to delete key: %s" (exec.stderr r))).
Proof.
  cbv zeta. unfold windows.del. destruct (run _ k) as [r k']. cbn [fst].
  intros Hascii. rewrite !(ToLower_ascii Map_ToLower _ Hascii).
  destruct (exec.err r) as [e|]; [destruct (_ || _)|]; cbn [fst];
    intuition (try discriminate; try congruence).
Qed.

Lemma windows_del_outcomes_witness :
  fst (windows.del element_not_found (fun s => s) "myapp" "api-key" tt)
  = Some ErrNotFound.
Proof.
  apply (proj1 (proj2 (windows_del_outcomes element_not_found (fun s => s)
                         "myapp" "api-key" tt eq_refl))).
  split; [vm_compute; discriminate | vm_compute; reflexivity].
Defined.

(** ** What reaches the backend *)

Lemma serve_traced (W : Type) (b : vault.Backend W) (r : request) (w : W)
    (log : list call) :
  serve (traced b) (w, log) r =
    (serve b w r, if request_valid r then log ++ [call_of r] else log).
Proof.
  destruct r as [service key value|service key|service key];
    cbn [serve request_valid call_of];
    unfold vault.Set_, vault.Get, vault.Del;
    destruct (String.eqb service EmptyString); cbn [orb andb negb];
      try reflexivity;
    destruct (String.eqb key EmptyString); cbn [orb andb negb];
      try reflexivity.
  - destruct (Z.of_nat (length value) =? 0); cbn [negb]; [reflexivity|].
    cbn. destruct (vault.set b service key value w). reflexivity.
  - cbn. destruct (vault.get b service key w). reflexivity.
  - cbn. destruct (vault.del b service key w). reflexivity.
Qed.

(** X15.  In a run of requests through the facade, the backend is called
    for exactly the requests that pass the validation, once each, in
    their order and with their arguments; and keeping the log changes
    nothing of what the backend does. *)
Theorem facade_forwards_valid_requests {W : Type} (b : vault.Backend W)
    (rs : list request) (w : W) (log : list call) :
  serve_all (traced b) rs (w, log) =
    (serve_all b rs w, log ++ map call_of (List.filter request_valid rs)).
Proof.
  revert w log. induction rs as [|r rs IH]; intros w log.
  - cbn. rewrite app_nil_r. reflexivity.
  - change (serve_all (traced b) (r :: rs) (w, log))
      with (serve_all (traced b) rs (serve (traced b) (w, log) r)).
    rewrite serve_traced, IH.
    change (serve_all b (r :: rs) w) with (serve_all b rs (serve b w r)).
    f_equal. cbn [List.filter].
    destruct (request_valid r); cbn [map]; [|reflexivity].
    rewrite <- app_assoc. reflexivity.
Qed.

(** ** Empty and padded output *)

Lemma TrimSpace_spaces (s : string) :
  all_chars is_space s = true -> strings.TrimSpace s = EmptyString.
Proof.
  intros H.
  pose proof (TrimSpace_plain EmptyString EmptyString s eq_refl eq_refl H) as E.
  rewrite !app_Empty in E. exact E.
Qed.



(** X17.  [get] on Windows returns the value when the script succeeds and
    prints the encoding of a non-empty value, with or without ASCII white
    space around it (a line end, for one). *)
Theorem windows_get_decodes_output {K : Type}
    (run : exec.Cmd -> K -> exec.Result * K) (service key : string) (k : K)
    (r : exec.Result) (k' : K) (lead trail : string) (value : list byte) :
  run (exec.Command "powershell"
         ["-NoProfile"; "-NonInteractive"; "-Command";
          windows.getScript (service +:+ "/" +:+ key)]) k = (r, k') ->
  exec.err r = None ->
  all_chars is_space lead = true -> all_chars is_space trail = true ->
  exec.stdout r
    = lead +:+ base64.EncodeToString base64.StdEncoding value +:+ trail ->
  value <> [] ->
  windows.get run service key k = ((value, None), k').
Proof.
  intros Hr He Hl Ht Hout Hv. unfold windows.get. rewrite Hr, He, Hout.
  rewrite (TrimSpace_plain lead _ trail Hl (StdEncoding_plain value) Ht).
  rewrite (eqb_empty_false _ (Encode_nonempty _ _ Hv)).
  rewrite StdEncoding_roundtrip. reflexivity.
Qed.

Lemma windows_get_decodes_output_witness :
  windows.get
    (prints (base64.EncodeToString base64.StdEncoding secret +:+ crlf))
    "myapp" "api-key" tt
  = ((secret, None), tt).
Proof.
  apply (windows_get_decodes_output _ "myapp" "api-key" tt
           (succeeded (base64.EncodeToString base64.StdEncoding secret
                       +:+ crlf))
           tt EmptyString crlf secret).
  - reflexivity.
  - reflexivity.
  - reflexivity.
  - reflexivity.
  - reflexivity.
  - discriminate.
Defined.

(** ** Line breaks in stored text *)

(** Two results of decoding with the same bytes, both without error or
    both with one. *)
Local Abbreviation same_ok r r' :=
  (fst r = fst r' /\ (snd r = None <-> snd r' = None)).

Lemma newline_unmapped (c : ascii) :
  base64.is_newline c = true ->
  base64.decodeMap base64.StdEncoding c = 255 /\
  base64.is_pad base64.StdEncoding c = false.
Proof.
  unfold base64.is_newline. intros H. apply orb_true_iff in H as [H|H];
    apply Ascii.eqb_eq in H; subst c; split; reflexivity.
Qed.

Lemma strip_head (s : string) :
  strip_newlines s = EmptyString \/
  exists c t, strip_newlines s = String c t /\ base64.is_newline c = false.
Proof.
  induction s as [|c s IH]; [left; reflexivity|].
  cbn [strip_newlines]. destruct (base64.is_newline c) eqn:E; [exact IH|].
  right. eauto.
Qed.

Lemma skip_newlines_stripped (s : string) (si : Z) :
  base64.skip_newlines (strip_newlines s) si = (strip_newlines s, si).
Proof.
  destruct (strip_head s) as [->|(c & t & -> & Hc)]; [reflexivity|].
  cbn [base64.skip_newlines]. rewrite Hc. reflexivity.
Qed.

Lemma skip_newlines_strip (s : string) :
  forall si,
    strip_newlines (fst (base64.skip_newlines s si)) = strip_newlines s /\
    (fst (base64.skip_newlines s si) = EmptyString \/
     exists c t, fst (base64.skip_newlines s si) = String c t /\
                 base64.is_newline c = false).
Proof.
  induction s as [|c s IH]; intros si; [split; [reflexivity|left; reflexivity]|].
  cbn [base64.skip_newlines strip_newlines].
  destruct (base64.is_newline c) eqn:E; [apply IH|].
  cbn [fst strip_newlines]. rewrite E. split; [reflexivity|]. right. eauto.
Qed.

Lemma convert_same (d0 d1 d2 d3 : Z) dlen si si' err err' dst :
  (err = None <-> err' = None) ->
  same_ok (base64.convert base64.StdEncoding d0 d1 d2 d3 dlen si err dst)
          (base64.convert base64.StdEncoding d0 d1 d2 d3 dlen si' err' dst).
Proof.
  intros H. unfold base64.convert.
  destruct dlen as [|[|[|[|[|n]]]]]; cbn; split; try reflexivity; exact H.
Qed.

Lemma after_padding_strip (d0 d1 d2 : Z) dlen (s : string) si si' dst :
  same_ok (base64.after_padding base64.StdEncoding d0 d1 d2 dlen s si dst)
          (base64.after_padding base64.StdEncoding d0 d1 d2 dlen
             (strip_newlines s) si' dst).
Proof.
  unfold base64.after_padding. rewrite skip_newlines_stripped.
  destruct (skip_newlines_strip s si) as [Hs Hh].
  destruct (base64.skip_newlines s si) as [r1 si1]. cbn [fst] in Hs, Hh.
  apply convert_same. rewrite <- Hs.
  destruct Hh as [->|(c & t & -> & Hc)]; cbn [strip_newlines];
    [tauto|]. rewrite Hc. split; discriminate.
Qed.

Lemma Decode_strip (s : string) :
  forall si si' j d0 d1 d2 dst,
    same_ok (base64.Decode base64.StdEncoding s si j d0 d1 d2 dst)
            (base64.Decode base64.StdEncoding (strip_newlines s) si' j
               d0 d1 d2 dst).
Proof.
  induction s as [|c rest IH]; intros si si' j d0 d1 d2 dst.
  - cbn [strip_newlines base64.Decode].
    destruct j as [|[|j]]; cbn; split; try reflexivity; split; discriminate.
  - cbn [strip_newlines].
    destruct (base64.is_newline c) eqn:Hnl.
    + destruct (newline_unmapped c Hnl) as [Hm _].
      cbn [base64.Decode]. rewrite Hm, Hnl. cbn [Z.eqb negb]. apply IH.
    + cbn [base64.Decode]. rewrite Hnl.
      destruct (negb (base64.decodeMap base64.StdEncoding c =? 255)).
      * destruct j as [|[|[|j]]]; apply IH.
      * destruct (negb (base64.is_pad base64.StdEncoding c));
          [cbn; split; [reflexivity|split; discriminate]|].
        destruct j as [|[|[|j]]];
          try (cbn; split; [reflexivity|split; discriminate]).
        -- rewrite skip_newlines_stripped.
           destruct (skip_newlines_strip rest (si + 1)) as [Hs Hh].
           destruct (base64.skip_newlines rest (si + 1)) as [r1 si1].
           cbn [fst] in Hs, Hh. rewrite <- Hs.
           destruct Hh as [->|(c2 & t & -> & Hc2)]; cbn [strip_newlines].
           ++ cbn. split; [reflexivity|split; discriminate].
           ++ rewrite Hc2.
              destruct (negb (base64.is_pad base64.StdEncoding c2));
                [cbn; split; [reflexivity|split; discriminate]|].
              apply after_padding_strip.
        -- apply after_padding_strip.
Qed.

Lemma DecodeString_wrapped (s : string) (value : list byte) :
  strip_newlines s = base64.EncodeToString base64.StdEncoding value ->
  base64.DecodeString base64.StdEncoding s = (value, None).
Proof.
  intros H. unfold base64.DecodeString.
  destruct (Decode_strip s 0 0 0%nat 0 0 0 []) as [Hf Hn].
  rewrite H in Hf, Hn.
  pose proof (StdEncoding_roundtrip value) as R.
  unfold base64.DecodeString in R. rewrite R in Hf, Hn. cbn [fst snd] in Hf, Hn.
  destruct (base64.Decode _ s _ _ _ _ _ _) as [out e]. cbn [fst snd] in Hf, Hn.
  subst out. f_equal. apply Hn. reflexivity.
Qed.


